(** * Verification of the generic vector container of go-utils

    The development embeds [src/collections/vector.go] (the current
    revision of the container) and the two older revisions kept in
    [src/unnamed/part_000] where their text differs.

    Modelling decisions.
    - A Go slice is either [nil] or a view on a backing array.  The view is
      kept as two lists: the [live] elements ([s[0:len(s)]]) and the [spare]
      slots between [len(s)] and [cap(s)].  [len] and [cap] are computed from
      them, as the Go runtime does from the slice header.
    - [uint64] values are integers of [Z]; the wrap-around of [index+1],
      [__cap-1] and of the conversions [int(capacity)] / [uint64(...)] is
      written out.  [len(s)] and [cap(s)] are Go [int]s in [0, 2^63), so
      [uint64(len(s))] and [uint64(cap(s))] preserve the value.
    - [make([]T, 0, c)] panics when [c] is not a non-negative [int], that
      is for every [uint64] value from [2^63] on; below that, allocation is
      idealised: [make] and [append] always obtain memory.
    - A method with a pointer receiver is a computation on the receiver,
      [None] being the [nil] pointer; reading or writing a field through
      [nil], indexing out of range, slicing out of bounds and [make] with a
      capacity out of range panic.
    - The capacity chosen by [append] when it reallocates is left to the
      runtime: [growth oldcap needed] is the number of spare slots the new
      array has beyond the [needed] ones. *)

From Stdlib Require Import String ZArith List Bool Lia.
Import ListNotations.
Local Open Scope Z_scope.

(** ** Outcomes: normal return or run-time panic *)

Inductive panic : Type :=
| NilDereference
| IndexOutOfRange
| SliceBoundsOutOfRange
| MakesliceCapOutOfRange.

Inductive outcome (A : Type) : Type :=
| Returns (a : A)
| Panics (p : panic).

Arguments Returns {A} a.
Arguments Panics {A} p.

(** ** Machine integers *)

Definition two64 : Z := 2 ^ 64.
Definition two63 : Z := 2 ^ 63.

(** [uint64(z)]: reduction modulo [2^64]. *)
Definition uint64 (z : Z) : Z := z mod two64.

(** [int(z)] on a 64-bit platform: two's complement reinterpretation. *)
Definition int (z : Z) : Z :=
  let w := z mod two64 in if w <? two63 then w else w - two64.

(** ** Errors *)

(** The [error] interface; the only implementation in use is the one of
    [errors.New], which carries its message.  [nil] is [None]. *)
Inductive error : Type :=
| errors_New (text : string).

(** ** Go slices *)

Section GoSlice.

Variable T : Type.
(** The zero value of [T] ([var x T]). *)
Variable zero : T.
(** Reallocation policy of [append]. *)
Variable growth : nat -> nat -> nat.

Record backing : Type := mkBacking {
  live : list T;
  spare : list T
}.

(** [nil] is [None]. *)
Definition slice : Type := option backing.

Definition elements (s : slice) : list T :=
  match s with
  | None => []
  | Some b => live b
  end.

Definition len (s : slice) : Z :=
  match s with
  | None => 0
  | Some b => Z.of_nat (length (live b))
  end.

Definition cap (s : slice) : Z :=
  match s with
  | None => 0
  | Some b => Z.of_nat (length (live b) + length (spare b))
  end.

Definition is_nil (s : slice) : bool :=
  match s with
  | None => true
  | Some _ => false
  end.

(** The slice of length 0 on a new array of [c] zero values. *)
Definition zeroed (c : Z) : slice :=
  Some (mkBacking [] (repeat zero (Z.to_nat c))).

(** [make([]T, 0, c)] for [c] of type [uint64]: the capacity is converted
    to [int], and the runtime panics with "makeslice: cap out of range"
    when the result is negative, that is from [2^63] on. *)
Definition make (c : Z) : outcome slice :=
  if (0 <=? c) && (c <? two63) then Returns (zeroed c)
  else Panics MakesliceCapOutOfRange.

(** [s[i]] *)
Definition slice_at (s : slice) (i : Z) : outcome T :=
  if (0 <=? i) && (i <? len s) then
    match nth_error (elements s) (Z.to_nat i) with
    | Some x => Returns x
    | None => Panics IndexOutOfRange
    end
  else Panics IndexOutOfRange.

(** [s[:hi]]: [hi] may reach into the spare slots, up to [cap(s)]. *)
Definition slice_to (s : slice) (hi : Z) : outcome slice :=
  if (0 <=? hi) && (hi <=? cap s) then
    match s with
    | None => Returns None
    | Some b =>
        let arr := live b ++ spare b in
        Returns (Some (mkBacking (firstn (Z.to_nat hi) arr)
                                 (skipn (Z.to_nat hi) arr)))
    end
  else Panics SliceBoundsOutOfRange.

(** [s[lo:]]: [lo] is at most [len(s)]. *)
Definition slice_from (s : slice) (lo : Z) : outcome slice :=
  if (0 <=? lo) && (lo <=? len s) then
    match s with
    | None => Returns None
    | Some b => Returns (Some (mkBacking (skipn (Z.to_nat lo) (live b))
                                         (spare b)))
    end
  else Panics SliceBoundsOutOfRange.

(** [append(s, xs...)].  With nothing to add the slice is returned as it
    is.  Otherwise the elements go into the spare slots when they fit, and
    into a new array when they do not. *)
Definition append (s : slice) (xs : list T) : slice :=
  match xs with
  | [] => s
  | _ :: _ =>
      let old := elements s in
      let free := match s with None => [] | Some b => spare b end in
      if (length xs <=? length free)%nat then
        Some (mkBacking (old ++ xs) (skipn (length xs) free))
      else
        let needed := (length old + length xs)%nat in
        Some (mkBacking (old ++ xs)
                        (repeat zero (growth (length old + length free) needed)))
  end.

(** [copy(dst, src)]: the elements written through [dst] and their
    number, [min(len(dst), len(src))]. *)
Definition copy (dst src : slice) : slice * Z :=
  let n := Nat.min (length (elements dst)) (length (elements src)) in
  (match dst with
   | None => None
   | Some b => Some (mkBacking (firstn n (elements src) ++ skipn n (live b))
                               (spare b))
   end, Z.of_nat n).

(** [slices.Clip(s)], that is [s[:len(s):len(s)]]. *)
Definition slices_Clip (s : slice) : slice :=
  match s with
  | None => None
  | Some b => Some (mkBacking (live b) [])
  end.

(** [slices.Reverse(s)]: the live elements in reverse order, written in
    place. *)
Definition slices_Reverse (s : slice) : slice :=
  match s with
  | None => None
  | Some b => Some (mkBacking (rev (live b)) (spare b))
  end.

End GoSlice.

Arguments mkBacking {T} live spare.
Arguments live {T} b.
Arguments spare {T} b.
Arguments elements {T} s.
Arguments len {T} s.
Arguments cap {T} s.
Arguments is_nil {T} s.
Arguments zeroed {T} zero c.
Arguments make {T} zero c.
Arguments slice_at {T} s i.
Arguments slice_to {T} s hi.
Arguments slice_from {T} s lo.
Arguments append {T} zero growth s xs.
Arguments copy {T} dst src.
Arguments slices_Clip {T} s.
Arguments slices_Reverse {T} s.

(** ** Methods on a pointer receiver *)

(** A method of [*S]: it runs on the receiver ([None] is the [nil] pointer)
    and either returns a value and the receiver's new pointee, or panics. *)
Definition method (S A : Type) : Type := option S -> outcome (A * option S).

Definition ret {S A : Type} (a : A) : method S A :=
  fun this => Returns (a, this).

Definition bind {S A B : Type} (m : method S A) (k : A -> method S B)
  : method S B :=
  fun this =>
    match m this with
    | Returns (a, this') => k a this'
    | Panics p => Panics p
    end.

Declare Scope method_scope.
Delimit Scope method_scope with method.
Notation "x <- m ;; k" := (bind m (fun x => k))
  (at level 61, m at next level, right associativity) : method_scope.
Notation "m ;; k" := (bind m (fun _ => k))
  (at level 61, right associativity) : method_scope.
Local Open Scope method_scope.

(** [this == nil] *)
Definition this_is_nil {S : Type} : method S bool :=
  fun this =>
    match this with
    | None => Returns (true, this)
    | Some _ => Returns (false, this)
    end.

(** [this.f]: a read through the receiver. *)
Definition read {S A : Type} (f : S -> A) : method S A :=
  fun this =>
    match this with
    | None => Panics NilDereference
    | Some v => Returns (f v, this)
    end.

(** [this.f = a], given the record update that sets [f]. *)
Definition write {S : Type} (upd : S -> S) : method S unit :=
  fun this =>
    match this with
    | None => Panics NilDereference
    | Some v => Returns (tt, Some (upd v))
    end.

(** [*this = v] *)
Definition assign {S : Type} (v : S) : method S unit :=
  write (fun _ => v).

(** [a || b], the right operand evaluated only when the left is false. *)
Definition orelse {S : Type} (a b : method S bool) : method S bool :=
  x <- a ;; if x then ret true else b.

(** An expression that may panic, used inside a method. *)
Definition lift {S A : Type} (o : outcome A) : method S A :=
  fun this =>
    match o with
    | Returns a => Returns (a, this)
    | Panics p => Panics p
    end.

(** ** [src/collections/vector.go] *)

Module VectorGo.

Definition nilValueAccess : string :=
  "Error: attempting to access nil value".
Definition indexOutOfBounds : string :=
  "Error: attempting to access invalid memory location".

Section Methods.

Variable T : Type.
Variable zero : T.
Variable growth : nat -> nat -> nat.

Record Vector : Type := mkVector {
  __slice : slice T;
  __len : Z;
  __cap : Z
}.

Definition set_slice (s : slice T) (v : Vector) : Vector :=
  mkVector s (__len v) (__cap v).
Definition set_len (n : Z) (v : Vector) : Vector :=
  mkVector (__slice v) n (__cap v).
Definition set_cap (n : Z) (v : Vector) : Vector :=
  mkVector (__slice v) (__len v) n.

(** [this.__slice == nil] *)
Definition slice_is_nil : method Vector bool :=
  s <- read __slice ;; ret (is_nil s).

Definition updateStatus : method Vector unit :=
  absent <- orelse this_is_nil slice_is_nil ;;
  if absent : bool then ret tt else
  s <- read __slice ;;
  write (set_len (len s)) ;;
  s <- read __slice ;;
  write (set_cap (cap s)).

Definition WithCapacity (capacity : Z) : outcome Vector :=
  match make zero capacity with
  | Returns s => Returns (mkVector s 0 capacity)
  | Panics p => Panics p
  end.

Definition New : outcome Vector := WithCapacity 0.

Definition AddCapacity (capacity : Z) : method Vector (option error) :=
  let safeCopy : slice T := None in
  absent <- this_is_nil ;;
  if absent : bool then ret (Some (errors_New nilValueAccess)) else
  unallocated <- slice_is_nil ;;
  if unallocated : bool then
    fresh <- lift (WithCapacity capacity) ;;
    assign fresh ;;
    ret None
  else
  s <- read __slice ;;
  let safeCopy := fst (copy safeCopy s) in
  write (set_slice None) ;;
  fresh <- lift (WithCapacity (uint64 (cap safeCopy + int capacity))) ;;
  assign fresh ;;
  s <- read __slice ;;
  write (set_slice (append zero growth s (elements safeCopy))) ;;
  updateStatus ;;
  ret None.

Definition Clear : method Vector unit :=
  absent <- this_is_nil ;;
  if absent : bool then ret tt else
  write (set_slice None) ;;
  fresh <- lift New ;;
  assign fresh ;;
  updateStatus.

Definition Strip : method Vector unit :=
  absent <- orelse this_is_nil slice_is_nil ;;
  if absent : bool then ret tt else
  s <- read __slice ;;
  write (set_slice (slices_Clip s)) ;;
  updateStatus.

(** [slices.Reverse] swaps the elements in the array the field points
    to, so the reversed view is what the field reads afterwards. *)
Definition Reverse : method Vector (option error) :=
  absent <- orelse this_is_nil slice_is_nil ;;
  if absent : bool then ret (Some (errors_New nilValueAccess)) else
  s <- read __slice ;;
  write (set_slice (slices_Reverse s)) ;;
  ret None.

Definition Append (element : T) : method Vector (option error) :=
  absent <- this_is_nil ;;
  if absent : bool then ret (Some (errors_New nilValueAccess)) else
  unallocated <- slice_is_nil ;;
  (if unallocated : bool then fresh <- lift New ;; assign fresh
   else ret tt) ;;
  s <- read __slice ;;
  write (set_slice (append zero growth s [element])) ;;
  updateStatus ;;
  ret None.

(** [copy(this.__slice, safeCopy)] writes through the field's slice;
    the field reads the written elements afterwards. *)
Definition Pop (index : Z) : method Vector (T * option error) :=
  let defaultValue := zero in
  absent <- orelse this_is_nil slice_is_nil ;;
  if absent : bool then
    ret (defaultValue, Some (errors_New nilValueAccess))
  else
  n <- read __len ;;
  if index <=? n then
    ret (defaultValue, Some (errors_New indexOutOfBounds))
  else
  s <- read __slice ;;
  defaultValue <- lift (slice_at s index) ;;
  s <- read __slice ;;
  leftSide <- lift (slice_to s index) ;;
  s <- read __slice ;;
  rightSide <- lift (slice_from s (uint64 (index + 1))) ;;
  c <- read __cap ;;
  safeCopy <- lift (make zero (uint64 (c - 1))) ;;
  let safeCopy := append zero growth safeCopy (elements leftSide) in
  let safeCopy := append zero growth safeCopy (elements rightSide) in
  Clear ;;
  s <- read __slice ;;
  write (set_slice (fst (copy s safeCopy))) ;;
  updateStatus ;;
  ret (defaultValue, None).

Definition Remove (index : Z) : method Vector unit :=
  r <- Pop index ;;
  match snd r with
  | Some _ => ret tt
  | None => updateStatus
  end.

Definition Len : method Vector Z :=
  absent <- orelse this_is_nil slice_is_nil ;;
  if absent : bool then ret 0 else
  updateStatus ;;
  read __len.

Definition Cap : method Vector Z :=
  absent <- orelse this_is_nil slice_is_nil ;;
  if absent : bool then ret 0 else
  updateStatus ;;
  read __cap.

End Methods.

Arguments mkVector {T} __slice __len __cap.
Arguments __slice {T} v.
Arguments __len {T} v.
Arguments __cap {T} v.
Arguments set_slice {T} s v.
Arguments set_len {T} n v.
Arguments set_cap {T} n v.
Arguments slice_is_nil {T}.
Arguments updateStatus {T}.
Arguments WithCapacity {T} zero capacity.
Arguments New {T} zero.
Arguments AddCapacity {T} zero growth capacity.
Arguments Clear {T} zero.
Arguments Strip {T}.
Arguments Reverse {T}.
Arguments Append {T} zero growth element.
Arguments Pop {T} zero growth index.
Arguments Remove {T} zero growth index.
Arguments Len {T}.
Arguments Cap {T}.

End VectorGo.

(** ** [src/unnamed/part_000], first file

    An older revision of the same package.  The struct is the one of
    [vector.go].  [Len] and [Cap] are plain getters, [updateStatus] does not
    test the receiver, [Strip] does not test the slice and [Pop] goes through
    [Len()] and [Cap()]; there is no [Remove]. *)

Module Part000A.

Import VectorGo.

Definition NIL_VALUE_ACCESS : string :=
  "Error: attempting to access nil value".
Definition INDEX_OUT_OF_BOUNDS : string :=
  "Error: attempting to access invalid memory location".

Section Methods.

Variable T : Type.
Variable zero : T.
Variable growth : nat -> nat -> nat.

Definition Len : method (Vector T) Z :=
  absent <- this_is_nil ;;
  if negb absent then read __len else ret 0.

Definition Cap : method (Vector T) Z :=
  absent <- this_is_nil ;;
  if negb absent then read __cap else ret 0.

Definition updateStatus : method (Vector T) unit :=
  unallocated <- slice_is_nil ;;
  if unallocated : bool then ret tt else
  s <- read __slice ;;
  write (set_len (len s)) ;;
  s <- read __slice ;;
  write (set_cap (cap s)).

Definition WithCapacity (capacity : Z) : outcome (Vector T) :=
  match make zero capacity with
  | Returns s => Returns (mkVector s 0 capacity)
  | Panics p => Panics p
  end.

Definition New : outcome (Vector T) := WithCapacity 0.

Definition AddCapacity (capacity : Z) : method (Vector T) (option error) :=
  let safeCopy : slice T := None in
  absent <- this_is_nil ;;
  if absent : bool then ret (Some (errors_New NIL_VALUE_ACCESS)) else
  unallocated <- slice_is_nil ;;
  if unallocated : bool then
    fresh <- lift (WithCapacity capacity) ;;
    assign fresh ;;
    ret None
  else
  s <- read __slice ;;
  let safeCopy := fst (copy safeCopy s) in
  write (set_slice None) ;;
  fresh <- lift (WithCapacity (uint64 (cap safeCopy + int capacity))) ;;
  assign fresh ;;
  s <- read __slice ;;
  write (set_slice (append zero growth s (elements safeCopy))) ;;
  updateStatus ;;
  ret None.

Definition Clear : method (Vector T) unit :=
  absent <- this_is_nil ;;
  if absent : bool then ret tt else
  write (set_slice None) ;;
  fresh <- lift New ;;
  assign fresh ;;
  updateStatus.

Definition Strip : method (Vector T) unit :=
  absent <- this_is_nil ;;
  if absent : bool then ret tt else
  s <- read __slice ;;
  write (set_slice (slices_Clip s)) ;;
  updateStatus.

Definition Reverse : method (Vector T) (option error) :=
  absent <- orelse this_is_nil slice_is_nil ;;
  if absent : bool then ret (Some (errors_New NIL_VALUE_ACCESS)) else
  s <- read __slice ;;
  write (set_slice (slices_Reverse s)) ;;
  ret None.

Definition Append (element : T) : method (Vector T) (option error) :=
  absent <- this_is_nil ;;
  if absent : bool then ret (Some (errors_New NIL_VALUE_ACCESS)) else
  unallocated <- slice_is_nil ;;
  (if unallocated : bool then fresh <- lift New ;; assign fresh
   else ret tt) ;;
  s <- read __slice ;;
  write (set_slice (append zero growth s [element])) ;;
  updateStatus ;;
  ret None.

Definition Pop (index : Z) : method (Vector T) (T * option error) :=
  let defaultValue := zero in
  absent <- orelse this_is_nil slice_is_nil ;;
  if absent : bool then
    ret (defaultValue, Some (errors_New NIL_VALUE_ACCESS))
  else
  n <- Len ;;
  if index <=? n then
    ret (defaultValue, Some (errors_New INDEX_OUT_OF_BOUNDS))
  else
  s <- read __slice ;;
  defaultValue <- lift (slice_at s index) ;;
  s <- read __slice ;;
  leftSide <- lift (slice_to s index) ;;
  s <- read __slice ;;
  rightSide <- lift (slice_from s (uint64 (index + 1))) ;;
  c <- Cap ;;
  safeCopy <- lift (make zero (uint64 (c - 1))) ;;
  let safeCopy := append zero growth safeCopy (elements leftSide) in
  let safeCopy := append zero growth safeCopy (elements rightSide) in
  Clear ;;
  s <- read __slice ;;
  write (set_slice (fst (copy s safeCopy))) ;;
  updateStatus ;;
  ret (defaultValue, None).

End Methods.

Arguments Len {T}.
Arguments Cap {T}.
Arguments updateStatus {T}.
Arguments WithCapacity {T} zero capacity.
Arguments New {T} zero.
Arguments AddCapacity {T} zero growth capacity.
Arguments Clear {T} zero.
Arguments Strip {T}.
Arguments Reverse {T}.
Arguments Append {T} zero growth element.
Arguments Pop {T} zero growth index.

End Part000A.

(** ** [src/unnamed/part_000], second file

    The revision with exported fields [Slice], [Len] and [Cap] and no
    accessor methods.  A caller outside the package can build a [Vector]
    from any three values. *)

Module Part000B.

Definition NIL_VALUE_ACCESS : string :=
  "Error: attempting to access nil value".
Definition INDEX_OUT_OF_BOUNDS : string :=
  "Error: attempting to access invalid memory location".

Section Methods.

Variable T : Type.
Variable zero : T.
Variable growth : nat -> nat -> nat.

Record Vector : Type := mkVector {
  Slice : slice T;
  Len : Z;
  Cap : Z
}.

Definition set_Slice (s : slice T) (v : Vector) : Vector :=
  mkVector s (Len v) (Cap v).
Definition set_Len (n : Z) (v : Vector) : Vector :=
  mkVector (Slice v) n (Cap v).
Definition set_Cap (n : Z) (v : Vector) : Vector :=
  mkVector (Slice v) (Len v) n.

(** [this.Slice == nil] *)
Definition slice_is_nil : method Vector bool :=
  s <- read Slice ;; ret (is_nil s).

Definition updateStatus : method Vector unit :=
  absent <- orelse this_is_nil slice_is_nil ;;
  if absent : bool then ret tt else
  s <- read Slice ;;
  write (set_Len (len s)) ;;
  s <- read Slice ;;
  write (set_Cap (cap s)).

Definition WithCapacity (capacity : Z) : outcome Vector :=
  match make zero capacity with
  | Returns s => Returns (mkVector s 0 capacity)
  | Panics p => Panics p
  end.

Definition New : outcome Vector := WithCapacity 0.

Definition AddCapacity (capacity : Z) : method Vector (option error) :=
  let safeCopy : slice T := None in
  absent <- this_is_nil ;;
  if absent : bool then ret (Some (errors_New NIL_VALUE_ACCESS)) else
  unallocated <- slice_is_nil ;;
  if unallocated : bool then
    fresh <- lift (WithCapacity capacity) ;;
    assign fresh ;;
    ret None
  else
  s <- read Slice ;;
  let safeCopy := fst (copy safeCopy s) in
  write (set_Slice None) ;;
  fresh <- lift (WithCapacity (uint64 (cap safeCopy + int capacity))) ;;
  assign fresh ;;
  s <- read Slice ;;
  write (set_Slice (append zero growth s (elements safeCopy))) ;;
  updateStatus ;;
  ret None.

Definition Clear : method Vector unit :=
  absent <- this_is_nil ;;
  if absent : bool then ret tt else
  write (set_Slice None) ;;
  fresh <- lift New ;;
  assign fresh ;;
  updateStatus.

Definition Strip : method Vector unit :=
  absent <- this_is_nil ;;
  if absent : bool then ret tt else
  s <- read Slice ;;
  write (set_Slice (slices_Clip s)) ;;
  updateStatus.

Definition Reverse : method Vector (option error) :=
  absent <- orelse this_is_nil slice_is_nil ;;
  if absent : bool then ret (Some (errors_New NIL_VALUE_ACCESS)) else
  s <- read Slice ;;
  write (set_Slice (slices_Reverse s)) ;;
  ret None.

Definition Append (element : T) : method Vector (option error) :=
  absent <- this_is_nil ;;
  if absent : bool then ret (Some (errors_New NIL_VALUE_ACCESS)) else
  unallocated <- slice_is_nil ;;
  (if unallocated : bool then fresh <- lift New ;; assign fresh
   else ret tt) ;;
  s <- read Slice ;;
  write (set_Slice (append zero growth s [element])) ;;
  updateStatus ;;
  ret None.

Definition Pop (index : Z) : method Vector (T * option error) :=
  let defaultValue := zero in
  absent <- orelse this_is_nil slice_is_nil ;;
  if absent : bool then
    ret (defaultValue, Some (errors_New NIL_VALUE_ACCESS))
  else
  n <- read Len ;;
  if index <=? n then
    ret (defaultValue, Some (errors_New INDEX_OUT_OF_BOUNDS))
  else
  s <- read Slice ;;
  defaultValue <- lift (slice_at s index) ;;
  s <- read Slice ;;
  leftSide <- lift (slice_to s index) ;;
  s <- read Slice ;;
  rightSide <- lift (slice_from s (uint64 (index + 1))) ;;
  c <- read Cap ;;
  safeCopy <- lift (make zero (uint64 (c - 1))) ;;
  let safeCopy := append zero growth safeCopy (elements leftSide) in
  let safeCopy := append zero growth safeCopy (elements rightSide) in
  Clear ;;
  s <- read Slice ;;
  write (set_Slice (fst (copy s safeCopy))) ;;
  updateStatus ;;
  ret (defaultValue, None).

End Methods.

Arguments mkVector {T} Slice Len Cap.
Arguments Slice {T} v.
Arguments Len {T} v.
Arguments Cap {T} v.
Arguments set_Slice {T} s v.
Arguments set_Len {T} n v.
Arguments set_Cap {T} n v.
Arguments slice_is_nil {T}.
Arguments updateStatus {T}.
Arguments WithCapacity {T} zero capacity.
Arguments New {T} zero.
Arguments AddCapacity {T} zero growth capacity.
Arguments Clear {T} zero.
Arguments Strip {T}.
Arguments Reverse {T}.
Arguments Append {T} zero growth element.
Arguments Pop {T} zero growth index.

End Part000B.

(** ** Vectors a caller of [vector.go] can hold *)

Module Client.

Import VectorGo.

Section Reachability.

Variable T : Type.
Variable zero : T.
Variable growth : nat -> nat -> nat.

(** The value of [var v Vector[T]]: no constructor has run. *)
Definition zero_value : Vector T := mkVector None 0 0.

(** The vector [WithCapacity(capacity)] returns when its [make] does not
    panic; [New()] returns [constructed 0]. *)
Definition constructed (capacity : Z) : Vector T :=
  mkVector (zeroed zero capacity) 0 capacity.

(** A call of one method of the public API, with its arguments. *)
Inductive call : Type :=
| CallAddCapacity (capacity : Z)
| CallAppend (element : T)
| CallPop (index : Z)
| CallRemove (index : Z)
| CallClear
| CallStrip
| CallReverse
| CallLen
| CallCap.

(** The call's effect on the receiver, its results dropped. *)
Definition perform (c : call) : method (Vector T) unit :=
  match c with
  | CallAddCapacity capacity => AddCapacity zero growth capacity ;; ret tt
  | CallAppend element => Append zero growth element ;; ret tt
  | CallPop index => Pop zero growth index ;; ret tt
  | CallRemove index => Remove zero growth index
  | CallClear => Clear zero
  | CallStrip => Strip
  | CallReverse => Reverse ;; ret tt
  | CallLen => Len ;; ret tt
  | CallCap => Cap ;; ret tt
  end.

(** The values of type [uint64]. *)
Definition is_uint64 (z : Z) : Prop := 0 <= z < two64.

(** The arguments have their Go types. *)
Definition well_typed (c : call) : Prop :=
  match c with
  | CallAddCapacity capacity => is_uint64 capacity
  | CallPop index | CallRemove index => is_uint64 index
  | _ => True
  end.

(** The vectors a client obtains: a declared variable, the result of a
    constructor that returned, and the pointee after a method call that
    returned. *)
Inductive reachable : Vector T -> Prop :=
| reach_declared : reachable zero_value
| reach_New (v : Vector T) : New zero = Returns v -> reachable v
| reach_WithCapacity (capacity : Z) (v : Vector T) :
    is_uint64 capacity ->
    WithCapacity zero capacity = Returns v -> reachable v
| reach_call (v v' : Vector T) (c : call) :
    reachable v -> well_typed c ->
    perform c (Some v) = Returns (tt, Some v') ->
    reachable v'.

(** The invariant of the data model: the cached fields agree with the
    slice. *)
Definition consistent (v : Vector T) : Prop :=
  0 <= __len v <= __cap v /\
  __len v = len (__slice v) /\
  __cap v = cap (__slice v).

(** [Append] called once for each element, in order; the results of
    the calls are collected. *)
Fixpoint append_each (xs : list T) : method (Vector T) (list (option error)) :=
  match xs with
  | [] => ret []
  | x :: rest =>
      e <- Append zero growth x ;;
      es <- append_each rest ;;
      ret (e :: es)
  end.

End Reachability.

Arguments zero_value {T}.
Arguments constructed {T} zero capacity.
Arguments CallAddCapacity {T} capacity.
Arguments CallAppend {T} element.
Arguments CallPop {T} index.
Arguments CallRemove {T} index.
Arguments CallClear {T}.
Arguments CallStrip {T}.
Arguments CallReverse {T}.
Arguments CallLen {T}.
Arguments CallCap {T}.
Arguments perform {T} zero growth c.
Arguments well_typed {T} c.
Arguments reachable {T} zero growth v.
Arguments consistent {T} v.
Arguments append_each {T} zero growth xs.

End Client.

(** ** The older revisions seen as [vector.go] vectors *)

Definition to_go {T : Type} (v : Part000B.Vector T) : VectorGo.Vector T :=
  VectorGo.mkVector (Part000B.Slice v) (Part000B.Len v) (Part000B.Cap v).

Definition outcome_map {A B : Type} (f : A -> B) (o : outcome A) : outcome B :=
  match o with
  | Returns a => Returns (f a)
  | Panics p => Panics p
  end.

(** The result of a [Part000B] method with the receiver read as a
    [vector.go] vector. *)
Definition as_go {T A : Type} (o : outcome (A * option (Part000B.Vector T)))
  : outcome (A * option (VectorGo.Vector T)) :=
  outcome_map (fun r => (fst r, option_map to_go (snd r))) o.

(** ** An instance to run the model on: [Vector[int]] *)

(** Doubling of the capacity, the spare slots counted beyond [needed]. *)
Definition doubling (oldcap needed : nat) : nat := (2 * oldcap - needed)%nat.

Arguments uint64 : simpl never.
Arguments int : simpl never.

(** * Properties *)

(** ** Machine integers *)

Lemma two64_pos : 0 < two64.
Proof. unfold two64. lia. Qed.

Lemma uint64_range (z : Z) : 0 <= uint64 z < two64.
Proof. unfold uint64. apply Z.mod_pos_bound, two64_pos. Qed.

Lemma uint64_small (z : Z) : 0 <= z < two64 -> uint64 z = z.
Proof. intros H. unfold uint64. apply Z.mod_small, H. Qed.

(** Converting to [int] and back loses nothing. *)
Lemma uint64_int (z : Z) : uint64 (int z) = uint64 z.
Proof.
  unfold uint64, int. cbv zeta.
  destruct (z mod two64 <? two63).
  - apply Z.mod_mod. pose proof two64_pos. lia.
  - replace (z mod two64 - two64) with (z mod two64 + (-1) * two64) by ring.
    rewrite Z.mod_add by (pose proof two64_pos; lia).
    apply Z.mod_mod. pose proof two64_pos. lia.
Qed.

(** ** Slices *)

Section SliceFacts.

Variable T : Type.
Variable zero : T.
Variable growth : nat -> nat -> nat.

Lemma len_elements (s : slice T) : len s = Z.of_nat (length (elements s)).
Proof. destruct s; reflexivity. Qed.

Lemma len_le_cap (s : slice T) : 0 <= len s <= cap s.
Proof. destruct s as [b|]; simpl; lia. Qed.

Lemma len_zeroed (c : Z) : len (zeroed zero c) = 0.
Proof. reflexivity. Qed.

Lemma cap_zeroed (c : Z) : 0 <= c -> cap (zeroed zero c) = c.
Proof.
  intros H. unfold zeroed, cap. simpl. rewrite repeat_length. lia.
Qed.

Lemma make_in_range (c : Z) :
  0 <= c < two63 -> make zero c = Returns (zeroed zero c).
Proof.
  intros H. unfold make.
  destruct (Z.leb_spec 0 c); [|lia].
  destruct (Z.ltb_spec c two63); [reflexivity|lia].
Qed.

Lemma make_out_of_range (c : Z) :
  two63 <= c -> make zero c = Panics MakesliceCapOutOfRange.
Proof.
  intros H. unfold make.
  destruct (Z.ltb_spec c two63); [lia|].
  now rewrite andb_false_r.
Qed.

Lemma make_Returns (c : Z) (s : slice T) :
  make zero c = Returns s -> s = zeroed zero c /\ 0 <= c < two63.
Proof.
  unfold make.
  destruct (Z.leb_spec 0 c); destruct (Z.ltb_spec c two63); cbn [andb];
    intros E; try discriminate.
  injection E as <-. split; [reflexivity|lia].
Qed.

Lemma elements_append (s : slice T) (xs : list T) :
  elements (append zero growth s xs) = elements s ++ xs.
Proof.
  destruct xs as [|x xs].
  - simpl. now rewrite app_nil_r.
  - unfold append.
    match goal with |- context [if ?c then _ else _] => destruct c end;
      reflexivity.
Qed.

Lemma append_not_nil (s : slice T) (x : T) (xs : list T) :
  is_nil (append zero growth s (x :: xs)) = false.
Proof.
  unfold append.
  match goal with |- context [if ?c then _ else _] => destruct c end;
    reflexivity.
Qed.

Lemma slice_at_past_len (s : slice T) (i : Z) :
  len s <= i -> slice_at s i = Panics IndexOutOfRange.
Proof.
  intros H. unfold slice_at.
  destruct (i <? len s) eqn:E.
  - apply Z.ltb_lt in E. lia.
  - now rewrite andb_false_r.
Qed.

Lemma slices_Reverse_involutive (s : slice T) :
  slices_Reverse (slices_Reverse s) = s.
Proof.
  destruct s as [[l sp]|]; simpl; [|reflexivity].
  now rewrite rev_involutive.
Qed.

Lemma slices_Reverse_short (s : slice T) :
  len s <= 1 -> slices_Reverse s = s.
Proof.
  destruct s as [[l sp]|]; simpl; [|reflexivity].
  destruct l as [|x [|y l]]; simpl; intros H; try reflexivity.
  lia.
Qed.

End SliceFacts.

(** ** Running the methods of [vector.go] *)

Arguments two63 : simpl never.
Arguments two64 : simpl never.
Arguments append : simpl never.
Arguments make : simpl never.
Arguments zeroed : simpl never.
Arguments copy : simpl never.
Arguments slice_at : simpl never.
Arguments slice_to : simpl never.
Arguments slice_from : simpl never.
Arguments len : simpl never.
Arguments cap : simpl never.
Arguments VectorGo.updateStatus : simpl never.
Arguments VectorGo.Clear : simpl never.
Arguments VectorGo.Pop : simpl never.

Ltac unfold_method :=
  unfold VectorGo.Pop, VectorGo.Remove, VectorGo.Len, VectorGo.Cap,
    VectorGo.Append, VectorGo.AddCapacity, VectorGo.Clear, VectorGo.Strip,
    VectorGo.Reverse, VectorGo.slice_is_nil,
    VectorGo.set_slice, VectorGo.set_len, VectorGo.set_cap,
    assign, orelse, this_is_nil, read, write, lift, bind, ret.

Section VectorGoFacts.

Import VectorGo.

Variable T : Type.
Variable zero : T.
Variable growth : nat -> nat -> nat.

Lemma updateStatus_nil : @updateStatus T None = Returns (tt, None).
Proof. reflexivity. Qed.

Lemma updateStatus_unallocated (n c : Z) :
  @updateStatus T (Some (mkVector None n c))
  = Returns (tt, Some (mkVector None n c)).
Proof. reflexivity. Qed.

Lemma updateStatus_allocated (b : backing T) (n c : Z) :
  updateStatus (Some (mkVector (Some b) n c))
  = Returns (tt, Some (mkVector (Some b) (len (Some b)) (cap (Some b)))).
Proof. reflexivity. Qed.

(** *** The constructors *)

Lemma WithCapacity_in_range (capacity : Z) :
  0 <= capacity < two63 ->
  WithCapacity zero capacity
  = Returns (mkVector (zeroed zero capacity) 0 capacity).
Proof.
  intros H. unfold WithCapacity. now rewrite make_in_range.
Qed.

Lemma WithCapacity_out_of_range (capacity : Z) :
  two63 <= capacity ->
  WithCapacity zero capacity = Panics MakesliceCapOutOfRange.
Proof.
  intros H. unfold WithCapacity. now rewrite make_out_of_range.
Qed.

Lemma WithCapacity_Returns (capacity : Z) (v : Vector T) :
  WithCapacity zero capacity = Returns v ->
  v = mkVector (zeroed zero capacity) 0 capacity /\ 0 <= capacity < two63.
Proof.
  unfold WithCapacity.
  destruct (make zero capacity) as [s|p] eqn:E; [|discriminate].
  intros [= <-]. apply make_Returns in E as [-> H]. now split.
Qed.

Lemma New_returns : New zero = Returns (mkVector (zeroed zero 0) 0 0).
Proof. reflexivity. Qed.

(** *** The methods *)

Lemma Clear_Some (v : Vector T) :
  Clear zero (Some v) = Returns (tt, Some (mkVector (zeroed zero 0) 0 0)).
Proof. reflexivity. Qed.

Lemma Append_Some (v : Vector T) (x : T) :
  Append zero growth x (Some v)
  = let s := append zero growth
               (match __slice v with
                | None => zeroed zero 0
                | Some b => Some b
                end) [x] in
    Returns (None, Some (mkVector s (len s) (cap s))).
Proof.
  destruct v as [[b|] n c]; unfold_method; cbn.
  - destruct (append zero growth (Some b) [x]) as [b'|] eqn:E.
    + rewrite updateStatus_allocated. reflexivity.
    + pose proof (append_not_nil T zero growth (Some b) x []) as H.
      rewrite E in H. discriminate.
  - rewrite New_returns. cbn.
    destruct (append zero growth (zeroed zero 0) [x]) as [b'|] eqn:E.
    + rewrite updateStatus_allocated. reflexivity.
    + pose proof (append_not_nil T zero growth (zeroed zero 0) x []) as H.
      rewrite E in H. discriminate.
Qed.

(** Allocated or not, the vector is replaced by what
    [WithCapacity(capacity)] returns, and the call panics where that
    panics: on an allocated vector the copy taken before reallocating goes
    through a [nil] slice and is empty. *)
Lemma AddCapacity_Some (v : Vector T) (capacity : Z) :
  0 <= capacity < two64 ->
  AddCapacity zero growth capacity (Some v)
  = outcome_map (fun w => (None, Some w)) (WithCapacity zero capacity).
Proof.
  intros Hc. destruct v as [[b|] n c]; unfold_method; cbn.
  - unfold copy. cbn.
    change (cap (@None (backing T))) with 0.
    rewrite Z.add_0_l, uint64_int, uint64_small by exact Hc.
    destruct (Z.ltb_spec capacity two63).
    + rewrite WithCapacity_in_range by (destruct Hc; lia). cbn.
      unfold append. cbn. unfold zeroed at 1.
      rewrite updateStatus_allocated.
      fold (zeroed zero capacity).
      rewrite len_zeroed, cap_zeroed by apply Hc. reflexivity.
    + now rewrite WithCapacity_out_of_range.
  - destruct (WithCapacity zero capacity); reflexivity.
Qed.

Lemma Strip_allocated (b : backing T) (n c : Z) :
  Strip (Some (mkVector (Some b) n c))
  = Returns (tt, Some (mkVector (slices_Clip (Some b))
                                (len (Some b)) (len (Some b)))).
Proof.
  unfold_method. cbn. unfold set_slice. cbn.
  rewrite updateStatus_allocated. unfold len, cap. cbn.
  now rewrite Nat.add_0_r.
Qed.

Lemma Strip_unallocated (n c : Z) :
  @Strip T (Some (mkVector None n c))
  = Returns (tt, Some (mkVector None n c)).
Proof. reflexivity. Qed.

Lemma Reverse_allocated (b : backing T) (n c : Z) :
  Reverse (Some (mkVector (Some b) n c))
  = Returns (None, Some (mkVector (slices_Reverse (Some b)) n c)).
Proof. reflexivity. Qed.

Lemma Reverse_unallocated (n c : Z) :
  @Reverse T (Some (mkVector None n c))
  = Returns (Some (errors_New nilValueAccess), Some (mkVector None n c)).
Proof. reflexivity. Qed.

Lemma Len_allocated (b : backing T) (n c : Z) :
  Len (Some (mkVector (Some b) n c))
  = Returns (len (Some b),
             Some (mkVector (Some b) (len (Some b)) (cap (Some b)))).
Proof. unfold_method. cbn. now rewrite updateStatus_allocated. Qed.

Lemma Cap_allocated (b : backing T) (n c : Z) :
  Cap (Some (mkVector (Some b) n c))
  = Returns (cap (Some b),
             Some (mkVector (Some b) (len (Some b)) (cap (Some b)))).
Proof. unfold_method. cbn. now rewrite updateStatus_allocated. Qed.

(** *** The three ways out of [Pop] that a stored length equal to
    [len(this.__slice)] leaves open *)

Lemma Pop_nil (index : Z) :
  Pop zero growth index None
  = Returns (zero, Some (errors_New nilValueAccess), None).
Proof. reflexivity. Qed.

Lemma Pop_unallocated (n c index : Z) :
  Pop zero growth index (Some (mkVector None n c))
  = Returns (zero, Some (errors_New nilValueAccess),
             Some (mkVector None n c)).
Proof. reflexivity. Qed.

Lemma Pop_at_most_len (b : backing T) (n c index : Z) :
  index <= n ->
  Pop zero growth index (Some (mkVector (Some b) n c))
  = Returns (zero, Some (errors_New indexOutOfBounds),
             Some (mkVector (Some b) n c)).
Proof.
  intros Hi. unfold_method. cbn.
  destruct (Z.leb_spec index n); [reflexivity|lia].
Qed.

Lemma Pop_past_len (b : backing T) (n c index : Z) :
  n < index -> len (Some b) <= index ->
  Pop zero growth index (Some (mkVector (Some b) n c))
  = Panics IndexOutOfRange.
Proof.
  intros Hi Hl. unfold_method. cbn.
  destruct (Z.leb_spec index n); [lia|].
  now rewrite slice_at_past_len.
Qed.

Lemma Remove_at_most_len (b : backing T) (n c index : Z) :
  index <= n ->
  Remove zero growth index (Some (mkVector (Some b) n c))
  = Returns (tt, Some (mkVector (Some b) n c)).
Proof.
  intros Hi. unfold Remove, bind.
  rewrite Pop_at_most_len by assumption. reflexivity.
Qed.

Lemma Remove_past_len (b : backing T) (n c index : Z) :
  n < index -> len (Some b) <= index ->
  Remove zero growth index (Some (mkVector (Some b) n c))
  = Panics IndexOutOfRange.
Proof.
  intros Hi Hl. unfold Remove, bind.
  rewrite Pop_past_len by assumption. reflexivity.
Qed.

End VectorGoFacts.

(** ** The invariant of the data model *)

Section InvariantFacts.

Import VectorGo Client.

Variable T : Type.
Variable zero : T.
Variable growth : nat -> nat -> nat.

Lemma consistent_refreshed (s : slice T) :
  consistent (mkVector s (len s) (cap s)).
Proof.
  unfold consistent. cbn. pose proof (len_le_cap T s). lia.
Qed.

Lemma consistent_constructed (capacity : Z) :
  0 <= capacity -> consistent (constructed zero capacity).
Proof.
  intros H. unfold consistent, constructed. cbn.
  rewrite len_zeroed, cap_zeroed by assumption. lia.
Qed.

Lemma WithCapacity_constructed (capacity : Z) (v : Vector T) :
  WithCapacity zero capacity = Returns v ->
  v = constructed zero capacity /\ 0 <= capacity < two63.
Proof. apply WithCapacity_Returns. Qed.

Lemma New_constructed : New zero = Returns (constructed zero 0).
Proof. reflexivity. Qed.

Lemma Clear_constructed (v : Vector T) :
  Clear zero (Some v) = Returns (tt, Some (constructed zero 0)).
Proof. reflexivity. Qed.

(** What a returning [AddCapacity] leaves. *)
Lemma AddCapacity_Returns
  (v : Vector T) (capacity : Z) (r : option error) (v' : Vector T) :
  is_uint64 capacity ->
  AddCapacity zero growth capacity (Some v) = Returns (r, Some v') ->
  r = None /\ v' = constructed zero capacity /\ capacity < two63.
Proof.
  intros Hc. rewrite AddCapacity_Some by exact Hc.
  destruct (WithCapacity zero capacity) as [w|p] eqn:E; [|discriminate].
  apply WithCapacity_constructed in E as [-> H]. cbn.
  intros [= <- <-]. repeat split. lia.
Qed.

Lemma consistent_zero_value : consistent (@zero_value T).
Proof. unfold consistent, zero_value, len, cap. cbn. lia. Qed.

Lemma len_Clip (s : slice T) : len (slices_Clip s) = len s.
Proof. destruct s; reflexivity. Qed.

Lemma cap_Clip (s : slice T) : cap (slices_Clip s) = len s.
Proof.
  destruct s as [b|]; [|reflexivity].
  unfold cap, len. cbn. now rewrite Nat.add_0_r.
Qed.

Lemma len_slices_Reverse (s : slice T) : len (slices_Reverse s) = len s.
Proof.
  destruct s as [b|]; [|reflexivity].
  unfold len. cbn. now rewrite length_rev.
Qed.

Lemma cap_slices_Reverse (s : slice T) : cap (slices_Reverse s) = cap s.
Proof.
  destruct s as [b|]; [|reflexivity].
  unfold cap. cbn. now rewrite length_rev.
Qed.

Lemma perform_AddCapacity (v v' : Vector T) (capacity : Z) :
  is_uint64 capacity ->
  perform zero growth (CallAddCapacity capacity) (Some v)
  = Returns (tt, Some v') ->
  v' = constructed zero capacity.
Proof.
  intros Hc. unfold perform, bind.
  destruct (AddCapacity zero growth capacity (Some v))
    as [[r [w|]]|p] eqn:E; try discriminate.
  intros [= <-].
  now apply AddCapacity_Returns in E as (_ & -> & _).
Qed.

(** A call that returns leaves a consistent vector consistent. *)
Lemma perform_consistent (c : call T) (v v' : Vector T) :
  consistent v -> well_typed c ->
  perform zero growth c (Some v) = Returns (tt, Some v') ->
  consistent v'.
Proof.
  intros Hv Hc.
  destruct c as [capacity|x|index|index| | | | | ];
    [|destruct v as [[b|] n k];
      [destruct Hv as (Hle & Hlen & Hcap); cbn in Hle, Hlen, Hcap|];
      unfold perform, bind ..].
  - intros Hrun. apply perform_AddCapacity in Hrun as ->; [|exact Hc].
    apply consistent_constructed. apply Hc.
  - rewrite Append_Some. cbn. intros [= <-]. apply consistent_refreshed.
  - rewrite Append_Some. cbn. intros [= <-]. apply consistent_refreshed.
  - destruct (Z.leb_spec index n).
    + rewrite Pop_at_most_len by assumption. intros [= <-].
      unfold consistent. cbn. lia.
    + rewrite Pop_past_len by lia. discriminate.
  - rewrite Pop_unallocated. intros [= <-]. exact Hv.
  - destruct (Z.leb_spec index n).
    + rewrite Remove_at_most_len by assumption. intros [= <-].
      unfold consistent. cbn. lia.
    + rewrite Remove_past_len by lia. discriminate.
  - unfold Remove, bind. rewrite Pop_unallocated. cbn.
    intros [= <-]. exact Hv.
  - rewrite Clear_constructed. intros [= <-].
    apply consistent_constructed. lia.
  - rewrite Clear_constructed. intros [= <-].
    apply consistent_constructed. lia.
  - rewrite Strip_allocated. intros [= <-].
    unfold consistent. cbn.
    pose proof (len_Clip (Some b)) as H1.
    pose proof (cap_Clip (Some b)) as H2. cbn in H1, H2.
    pose proof (len_le_cap T (Some b)). lia.
  - rewrite Strip_unallocated. intros [= <-]. exact Hv.
  - rewrite Reverse_allocated. intros [= <-].
    unfold consistent. cbn.
    pose proof (len_slices_Reverse (Some b)) as H1.
    pose proof (cap_slices_Reverse (Some b)) as H2. cbn in H1, H2.
    lia.
  - rewrite Reverse_unallocated. intros [= <-]. exact Hv.
  - rewrite Len_allocated. intros [= <-]. apply consistent_refreshed.
  - cbn. intros [= <-]. exact Hv.
  - rewrite Cap_allocated. intros [= <-]. apply consistent_refreshed.
  - cbn. intros [= <-]. exact Hv.
Qed.

Lemma reachable_consistent (v : Vector T) :
  reachable zero growth v -> consistent v.
Proof.
  induction 1 as [ |v Hnew|capacity v Hc Hwith|v v' c Hv IH Hc Hrun].
  - apply consistent_zero_value.
  - rewrite New_constructed in Hnew. injection Hnew as <-.
    apply consistent_constructed. lia.
  - apply WithCapacity_constructed in Hwith as [-> H].
    apply consistent_constructed. lia.
  - eapply perform_consistent; eassumption.
Qed.



End InvariantFacts.

(** ** The older revisions compute what [vector.go] computes *)

Section RevisionFacts.

Variable T : Type.
Variable zero : T.
Variable growth : nat -> nat -> nat.

Ltac by_cases_on_make :=
  match goal with
  | |- context [make zero ?k] =>
      let E := fresh "E" in
      destruct (make zero k) as [?s|?p] eqn:E;
      [apply make_Returns in E as [-> _]|]
  end;
  reflexivity.

Lemma Part000A_updateStatus (v : VectorGo.Vector T) :
  Part000A.updateStatus (Some v) = VectorGo.updateStatus (Some v).
Proof. destruct v as [[b|] n c]; reflexivity. Qed.

Lemma Part000A_Len (v : VectorGo.Vector T) :
  Part000A.Len (Some v) = Returns (VectorGo.__len v, Some v).
Proof. reflexivity. Qed.

Lemma Part000A_Cap (v : VectorGo.Vector T) :
  Part000A.Cap (Some v) = Returns (VectorGo.__cap v, Some v).
Proof. reflexivity. Qed.

Lemma Part000A_AddCapacity (capacity : Z) (this : option (VectorGo.Vector T)) :
  Part000A.AddCapacity zero growth capacity this
  = VectorGo.AddCapacity zero growth capacity this.
Proof.
  destruct this as [[[b|] n c]|]; try reflexivity;
    unfold Part000A.AddCapacity, VectorGo.AddCapacity,
      Part000A.WithCapacity, VectorGo.WithCapacity, VectorGo.slice_is_nil,
      assign, read, write, this_is_nil, lift, bind, ret; cbn;
    by_cases_on_make.
Qed.

Lemma Part000A_Clear (this : option (VectorGo.Vector T)) :
  Part000A.Clear zero this = VectorGo.Clear zero this.
Proof. destruct this as [[[b|] n c]|]; reflexivity. Qed.

Lemma Part000A_Strip (this : option (VectorGo.Vector T)) :
  Part000A.Strip this = VectorGo.Strip this.
Proof. destruct this as [[[b|] n c]|]; reflexivity. Qed.

Lemma Part000A_Reverse (this : option (VectorGo.Vector T)) :
  Part000A.Reverse this = VectorGo.Reverse this.
Proof. destruct this as [[[b|] n c]|]; reflexivity. Qed.

Lemma Part000A_Append (x : T) (this : option (VectorGo.Vector T)) :
  Part000A.Append zero growth x this = VectorGo.Append zero growth x this.
Proof.
  destruct this as [[[b|] n c]|]; try reflexivity;
    unfold Part000A.Append, VectorGo.Append, VectorGo.slice_is_nil,
      VectorGo.set_slice, assign, read, write, this_is_nil, bind, ret; cbn;
    match goal with
    | |- context [Part000A.updateStatus (Some ?v)] =>
        rewrite (Part000A_updateStatus v)
    end; reflexivity.
Qed.

Lemma Part000A_Pop (index : Z) (this : option (VectorGo.Vector T)) :
  Part000A.Pop zero growth index this = VectorGo.Pop zero growth index this.
Proof.
  destruct this as [[[b|] n c]|]; try reflexivity.
  unfold Part000A.Pop, VectorGo.Pop, Part000A.Len, Part000A.Cap,
    VectorGo.slice_is_nil, orelse, read, this_is_nil, lift, bind, ret.
  cbn.
  destruct (index <=? n); [reflexivity|]. cbn.
  destruct (slice_at (Some b) index); [|reflexivity]. cbn.
  destruct (slice_to (Some b) index); [|reflexivity]. cbn.
  destruct (slice_from (Some b) (uint64 (index + 1))); [|reflexivity].
  cbn. by_cases_on_make.
Qed.

Lemma Part000B_AddCapacity (capacity : Z) (this : option (Part000B.Vector T)) :
  as_go (Part000B.AddCapacity zero growth capacity this)
  = VectorGo.AddCapacity zero growth capacity (option_map to_go this).
Proof.
  destruct this as [[[b|] n c]|]; try reflexivity;
    unfold Part000B.AddCapacity, VectorGo.AddCapacity,
      Part000B.WithCapacity, VectorGo.WithCapacity, Part000B.slice_is_nil,
      VectorGo.slice_is_nil, assign, read, write, this_is_nil, lift, bind,
      ret, option_map, to_go; cbn;
    by_cases_on_make.
Qed.

Lemma Part000B_Clear (this : option (Part000B.Vector T)) :
  as_go (Part000B.Clear zero this)
  = VectorGo.Clear zero (option_map to_go this).
Proof. destruct this as [[[b|] n c]|]; reflexivity. Qed.

Lemma Part000B_Strip (this : option (Part000B.Vector T)) :
  as_go (Part000B.Strip this) = VectorGo.Strip (option_map to_go this).
Proof. destruct this as [[[b|] n c]|]; reflexivity. Qed.

Lemma Part000B_Reverse (this : option (Part000B.Vector T)) :
  as_go (Part000B.Reverse this) = VectorGo.Reverse (option_map to_go this).
Proof. destruct this as [[[b|] n c]|]; reflexivity. Qed.

Lemma Part000B_Append (x : T) (this : option (Part000B.Vector T)) :
  as_go (Part000B.Append zero growth x this)
  = VectorGo.Append zero growth x (option_map to_go this).
Proof.
  destruct this as [[[b|] n c]|]; try reflexivity;
    unfold Part000B.Append, VectorGo.Append, Part000B.slice_is_nil,
      VectorGo.slice_is_nil, Part000B.set_Slice, VectorGo.set_slice,
      assign, read, write, this_is_nil, bind, ret; cbn;
    match goal with
    | |- context [append zero growth ?s [x]] =>
        pose proof (append_not_nil T zero growth s x []) as H;
        destruct (append zero growth s [x]); [reflexivity|discriminate]
    end.
Qed.

Lemma Part000B_Pop (index : Z) (this : option (Part000B.Vector T)) :
  as_go (Part000B.Pop zero growth index this)
  = VectorGo.Pop zero growth index (option_map to_go this).
Proof.
  destruct this as [[[b|] n c]|]; try reflexivity.
  unfold Part000B.Pop, VectorGo.Pop, Part000B.slice_is_nil,
    VectorGo.slice_is_nil, orelse, read, this_is_nil, lift, bind, ret,
    option_map, to_go.
  cbn.
  destruct (index <=? n); [reflexivity|]. cbn.
  destruct (slice_at (Some b) index); [|reflexivity]. cbn.
  destruct (slice_to (Some b) index); [|reflexivity]. cbn.
  destruct (slice_from (Some b) (uint64 (index + 1))); [|reflexivity].
  cbn. by_cases_on_make.
Qed.

End RevisionFacts.

(** * The claims of the specification *)

Section Claims.

Import VectorGo Client.

Variable T : Type.
Variable zero : T.
Variable growth : nat -> nat -> nat.

(** ** Indexed removal *)

(** C1.  The specification has [Pop(index)], for an index of [[0, length)],
    remove and return the element there, and [Append] followed by
    [Pop(length-1)] give the appended element back.  The code departs from
    it: the guard of [Pop] is [this.__len >= index], so for every vector
    with backing storage and every index of [[0, length)] the call returns
    the zero value with the index-out-of-bounds error and leaves the vector
    as it was; after an [Append], [Pop(Len()-1)] returns that error, not
    the appended element, and the length stays as the [Append] left it. *)
Theorem Pop_rejects_index_in_range (b : backing T) (n c index : Z) (x : T) :
  0 <= index < n ->
  Pop zero growth index (Some (mkVector (Some b) n c))
  = Returns (zero, Some (errors_New indexOutOfBounds),
             Some (mkVector (Some b) n c))
  /\ exists v' : Vector T,
      Append zero growth x (Some (mkVector (Some b) n c))
      = Returns (None, Some v')
      /\ elements (__slice v') = live b ++ [x]
      /\ (k <- Len ;; Pop zero growth (uint64 (k - 1))) (Some v')
         = Returns (zero, Some (errors_New indexOutOfBounds), Some v').
Proof.
  intros Hi. split.
  - apply Pop_at_most_len. lia.
  - rewrite Append_Some. cbn.
    destruct (append zero growth (Some b) [x]) as [b'|] eqn:E.
    + eexists. split; [reflexivity|]. split.
      * cbn. change (live b') with (elements (Some b')). rewrite <- E.
        apply elements_append.
      * unfold bind. rewrite Len_allocated.
        apply Pop_at_most_len.
        assert (Hk : 1 <= len (Some b')).
        { rewrite <- E, len_elements, elements_append, length_app.
          cbn. lia. }
        unfold uint64. pose proof two64_pos.
        pose proof (Z.mod_le (len (Some b') - 1) two64). lia.
    + pose proof (append_not_nil T zero growth (Some b) x []) as H.
      rewrite E in H. discriminate.
Qed.

(** C3.  The specification has [Pop(index)] return the index-out-of-bounds
    error for every [index >= length] (the nil-access error without backing
    storage) and leave the vector unchanged.  The code does so without
    backing storage and at [index = length]; at every [index > length], on a
    vector whose stored length is the length of its slice, the inverted
    guard lets the call through and [this.__slice[index]] panics. *)
Theorem Pop_past_length_panics (b : backing T) (n c index : Z) :
  n = len (Some b) ->
  Pop zero growth index (Some (mkVector None n c))
  = Returns (zero, Some (errors_New nilValueAccess), Some (mkVector None n c))
  /\ Pop zero growth n (Some (mkVector (Some b) n c))
     = Returns (zero, Some (errors_New indexOutOfBounds),
                Some (mkVector (Some b) n c))
  /\ (n < index ->
      Pop zero growth index (Some (mkVector (Some b) n c))
      = Panics IndexOutOfRange).
Proof.
  intros Hn. split; [|split].
  - apply Pop_unallocated.
  - apply Pop_at_most_len. lia.
  - intros Hi. apply Pop_past_len; lia.
Qed.

(** The methods other than [Pop], [Remove] and [AddCapacity] return on
    every receiver; [AddCapacity] returns for a capacity below [2^63] and
    panics in [make] from there on. *)
Lemma methods_without_index_return
  (this : option (Vector T)) (capacity : Z) (x : T) :
  (exists r, Append zero growth x this = Returns r)
  /\ (exists r, Clear zero this = Returns r)
  /\ (exists r, Strip this = Returns r)
  /\ (exists r, Reverse this = Returns r)
  /\ (exists r, Len this = Returns r)
  /\ (exists r, Cap this = Returns r)
  /\ (0 <= capacity < two63 ->
      exists r, AddCapacity zero growth capacity this = Returns r)
  /\ (two63 <= capacity < two64 ->
      forall v : Vector T,
        this = Some v ->
        AddCapacity zero growth capacity this
        = Panics MakesliceCapOutOfRange).
Proof.
  assert (Hadd : 0 <= capacity < two63 ->
                 exists r, AddCapacity zero growth capacity this = Returns r).
  { intros Hc. destruct this as [v|]; [|eexists; reflexivity].
    rewrite AddCapacity_Some, WithCapacity_in_range
      by (unfold two63, two64 in *; lia).
    eexists. reflexivity. }
  assert (Hpanic : two63 <= capacity < two64 ->
                   forall v : Vector T,
                     this = Some v ->
                     AddCapacity zero growth capacity this
                     = Panics MakesliceCapOutOfRange).
  { intros Hc v ->.
    rewrite AddCapacity_Some, WithCapacity_out_of_range
      by (unfold two63, two64 in *; lia).
    reflexivity. }
  destruct this as [[[b|] n c]|].
  - rewrite Append_Some, Clear_Some, Strip_allocated,
      Reverse_allocated, Len_allocated, Cap_allocated.
    repeat split; try (eexists; reflexivity); assumption.
  - rewrite Append_Some, Clear_Some.
    repeat split; try (eexists; reflexivity); assumption.
  - repeat split; try (eexists; reflexivity); assumption.
Qed.

(** C4.  The specification has no operation of the public API panic on a
    documented input.  The code departs from it: on every vector a client
    can hold that has backing storage, [Pop] and [Remove] panic at every
    index above the length. *)
Theorem Pop_and_Remove_panic_above_length (v : Vector T) (index : Z) :
  reachable zero growth v -> __slice v <> None -> __len v < index ->
  Pop zero growth index (Some v) = Panics IndexOutOfRange
  /\ Remove zero growth index (Some v) = Panics IndexOutOfRange.
Proof.
  intros Hr Hs Hi.
  destruct (reachable_consistent T zero growth v Hr) as (_ & Hlen & _).
  destruct v as [[b|] n c]; [|now elim Hs]. cbn in Hi, Hlen.
  split.
  - apply Pop_past_len; lia.
  - apply Remove_past_len; lia.
Qed.

(** ** Capacity *)

(** C2.  The specification has [AddCapacity(extra)] raise the capacity of a
    vector with backing storage by [extra] and keep its elements, and
    allocate storage of size [extra] for a vector without.  The code does
    the second for both: the elements are copied into a [nil] slice, that is
    not at all, so whatever the vector held, it is left as what
    [WithCapacity(extra)] returns, with no element and capacity [extra]
    (and the call panics where [WithCapacity(extra)] does, from [2^63]
    on). *)
Theorem AddCapacity_leaves_WithCapacity (v : Vector T) (capacity : Z) :
  is_uint64 capacity ->
  AddCapacity zero growth capacity (Some v)
  = outcome_map (fun w => (None, Some w)) (WithCapacity zero capacity)
  /\ (capacity < two63 ->
      WithCapacity zero capacity = Returns (constructed zero capacity)
      /\ AddCapacity zero growth capacity (Some v)
         = Returns (None, Some (constructed zero capacity))
      /\ elements (__slice (constructed zero capacity)) = []
      /\ cap (__slice (constructed zero capacity)) = capacity)
  /\ (two63 <= capacity ->
      AddCapacity zero growth capacity (Some v)
      = Panics MakesliceCapOutOfRange).
Proof.
  intros Hc. pose proof (AddCapacity_Some T zero growth v capacity Hc) as E.
  split; [exact E|]. split.
  - intros Hlt. rewrite E.
    rewrite WithCapacity_in_range by (destruct Hc; lia).
    split; [reflexivity|]. split; [reflexivity|]. split; [reflexivity|].
    apply cap_zeroed. apply Hc.
  - intros Hge. rewrite E. now rewrite WithCapacity_out_of_range.
Qed.

(** ** Appending *)

Lemma append_each_allocated (xs : list T) (v : Vector T) :
  __slice v <> None -> __len v = len (__slice v) ->
  exists v' : Vector T,
    append_each zero growth xs (Some v)
    = Returns (repeat None (length xs), Some v')
    /\ __slice v' <> None
    /\ __len v' = len (__slice v')
    /\ elements (__slice v') = elements (__slice v) ++ xs.
Proof.
  revert v. induction xs as [|x xs IH]; intros v Hs Hlen.
  - exists v. cbn. now rewrite app_nil_r.
  - cbn [append_each]. unfold bind at 1. rewrite Append_Some. cbn zeta.
    destruct v as [[b|] n c]; [|now elim Hs]. cbn [__slice].
    set (s := append zero growth (Some b) [x]).
    destruct (IH (mkVector s (len s) (cap s)))
      as (v' & Hrun & Hs' & Hlen' & Hel).
    + cbn. pose proof (append_not_nil T zero growth (Some b) x []) as H.
      fold s in H. destruct s; [discriminate|discriminate].
    + reflexivity.
    + exists v'. unfold bind at 1. rewrite Hrun. cbn. split; [reflexivity|].
      split; [assumption|]. split; [assumption|].
      rewrite Hel. cbn [__slice]. unfold s. rewrite elements_append.
      cbn. now rewrite <- app_assoc.
Qed.

Lemma Len_Some_allocated (v : Vector T) :
  __slice v <> None ->
  exists v' : Vector T,
    Len (Some v) = Returns (Z.of_nat (length (elements (__slice v))), Some v').
Proof.
  destruct v as [[b|] n c]; intros Hs; [|now elim Hs].
  rewrite Len_allocated. eexists. reflexivity.
Qed.

(** C5.  Starting from a freshly constructed vector (whatever
    [WithCapacity] returned, for any capacity; [New()] is
    [WithCapacity(0)]), every [Append] of a sequence of [n] of them returns
    without error, [Len()] is then [n] (also with the getter of the older
    revision, whose [Append] is the same), and the vector holds exactly the
    appended elements in the order of the calls. *)
Theorem Append_sequence_Len_and_order
  (capacity : Z) (start : Vector T) (xs : list T) :
  WithCapacity zero capacity = Returns start ->
  exists v' : Vector T,
    append_each zero growth xs (Some start)
    = Returns (repeat None (length xs), Some v')
    /\ (exists v'' : Vector T,
          Len (Some v') = Returns (Z.of_nat (length xs), Some v''))
    /\ Part000A.Len (Some v') = Returns (Z.of_nat (length xs), Some v')
    /\ elements (__slice v') = xs.
Proof.
  intros Hstart.
  apply WithCapacity_constructed in Hstart as [-> _].
  destruct (append_each_allocated xs (constructed zero capacity))
    as (v' & Hrun & Hs & Hlen & Hel); [discriminate|reflexivity|].
  cbn in Hel. exists v'. split; [exact Hrun|].
  split; [|split; [|exact Hel]].
  - destruct (Len_Some_allocated v' Hs) as (v'' & HLen).
    exists v''. now rewrite HLen, Hel.
  - rewrite Part000A_Len, Hlen, len_elements, Hel. reflexivity.
Qed.

(** ** The data model *)

(** C6.  Every vector a client can hold (a declared variable, the result of
    [New] or [WithCapacity], and the receiver after any returning call of
    the public methods) has [0 <= length <= capacity], its stored length is
    the number of elements of its backing slice and its stored capacity is
    the allocated size of the backing array (both 0 when there is none). *)
Theorem reachable_satisfies_invariant (v : Vector T) :
  reachable zero growth v ->
  0 <= __len v <= __cap v
  /\ __len v = Z.of_nat (length (elements (__slice v)))
  /\ __cap v = match __slice v with
               | None => 0
               | Some b => Z.of_nat (length (live b ++ spare b))
               end.
Proof.
  intros Hr.
  destruct (reachable_consistent T zero growth v Hr) as (Hle & Hlen & Hcap).
  split; [exact Hle|]. split.
  - now rewrite <- len_elements.
  - rewrite Hcap. destruct (__slice v) as [b|]; [|reflexivity].
    unfold cap. now rewrite length_app.
Qed.

(** ** Stripping *)

(** C7.  On every receiver, [Len()] called after [Strip()] returns what
    [Len()] returns without it, and [Cap()] called after [Strip()] returns
    the same number; on an absent receiver and on a vector without backing
    storage [Strip()] changes nothing.  With the getters of the older
    revision the same holds on every vector whose stored fields are
    current, as they are on those a client can hold. *)
Theorem Strip_keeps_Len_and_tightens_Cap (this : option (Vector T)) :
  (exists (k : Z) (s0 s1 s2 : option (Vector T)),
      Len this = Returns (k, s0)
      /\ (Strip ;; Len) this = Returns (k, s1)
      /\ (Strip ;; Cap) this = Returns (k, s2))
  /\ @Strip T None = Returns (tt, None)
  /\ (forall n c : Z,
         @Strip T (Some (mkVector None n c))
         = Returns (tt, Some (mkVector None n c)))
  /\ (forall v : Vector T,
         this = Some v -> consistent v ->
         exists (k : Z) (s1 s2 : option (Vector T)),
           Part000A.Len this = Returns (k, this)
           /\ (Part000A.Strip ;; Part000A.Len) this = Returns (k, s1)
           /\ (Part000A.Strip ;; Part000A.Cap) this = Returns (k, s2)).
Proof.
  split; [|split; [reflexivity|split; [intros; apply Strip_unallocated|]]].
  - destruct this as [[[b|] n c]|].
    + exists (len (Some b)). do 3 eexists.
      pose proof (len_Clip T (Some b)) as H1.
      pose proof (cap_Clip T (Some b)) as H2. cbn [slices_Clip] in H1, H2.
      split; [apply Len_allocated|]. split.
      * unfold bind. rewrite Strip_allocated. cbn [slices_Clip].
        rewrite Len_allocated, H1. reflexivity.
      * unfold bind. rewrite Strip_allocated. cbn [slices_Clip].
        rewrite Cap_allocated, H2. reflexivity.
    + exists 0. do 3 eexists. repeat split; reflexivity.
    + exists 0. do 3 eexists. repeat split; reflexivity.
  - intros v -> (Hle & Hlen & Hcap).
    destruct v as [[b|] n c]; cbn in Hle, Hlen, Hcap.
    + exists n. do 2 eexists.
      split; [reflexivity|]. split.
      * unfold bind. rewrite Part000A_Strip, Strip_allocated.
        rewrite Part000A_Len. cbn. now rewrite Hlen.
      * unfold bind. rewrite Part000A_Strip, Strip_allocated.
        rewrite Part000A_Cap. cbn. now rewrite Hlen.
    + assert (n = 0 /\ c = 0) as [-> ->] by (unfold len, cap in *; lia).
      exists 0. do 2 eexists. repeat split; reflexivity.
Qed.

(** ** Reversal *)

(** C8.  On every vector with backing storage two calls of [Reverse()] both
    succeed and leave the vector as it was, elements and order included; on
    one of length 0 or 1 a single call succeeds and changes nothing. *)
Theorem Reverse_twice_restores (b : backing T) (n c : Z) :
  (first <- Reverse ;; second <- Reverse ;; ret (first, second))
    (Some (mkVector (Some b) n c))
  = Returns ((None, None), Some (mkVector (Some b) n c))
  /\ ((length (live b) <= 1)%nat ->
      Reverse (Some (mkVector (Some b) n c))
      = Returns (None, Some (mkVector (Some b) n c))).
Proof.
  split.
  - unfold bind at 1. rewrite Reverse_allocated. cbn [slices_Reverse].
    unfold bind at 1. rewrite Reverse_allocated.
    pose proof (slices_Reverse_involutive T (Some b)) as H.
    cbn [slices_Reverse] in *. cbn [live spare] in *. rewrite H. reflexivity.
  - intros Hshort. rewrite Reverse_allocated.
    rewrite slices_Reverse_short; [reflexivity|].
    unfold len. lia.
Qed.


(** ** What [Pop] returns *)

(** X14.  On every vector with backing storage and every index at most
    the stored length, [Pop] returns the index-out-of-bounds error with the
    zero value and changes nothing, in the three revisions alike; on an
    absent receiver it returns the nil-access error.  Whenever the stored
    length is the length of the slice, as on every vector a client of
    [vector.go] can hold, a [Pop] that returns returns an error, in the
    three revisions alike. *)
Theorem Pop_never_yields_with_current_length :
  (forall (b : backing T) (n c index : Z), index <= n ->
      Pop zero growth index (Some (mkVector (Some b) n c))
      = Returns (zero, Some (errors_New indexOutOfBounds),
                 Some (mkVector (Some b) n c))
      /\ Part000A.Pop zero growth index (Some (mkVector (Some b) n c))
         = Returns (zero, Some (errors_New Part000A.INDEX_OUT_OF_BOUNDS),
                    Some (mkVector (Some b) n c))
      /\ Part000B.Pop zero growth index
           (Some (Part000B.mkVector (Some b) n c))
         = Returns (zero, Some (errors_New Part000B.INDEX_OUT_OF_BOUNDS),
                    Some (Part000B.mkVector (Some b) n c)))
  /\ (forall index : Z,
         Pop zero growth index None
         = Returns (zero, Some (errors_New nilValueAccess), None))
  /\ (forall (v : Vector T) (index : Z) (r : T * option error)
             (this' : option (Vector T)),
         __len v = len (__slice v) ->
         Pop zero growth index (Some v) = Returns (r, this')
         \/ Part000A.Pop zero growth index (Some v) = Returns (r, this') ->
         snd r <> None)
  /\ (forall (v : Part000B.Vector T) (index : Z) (r : T * option error)
             (this' : option (Part000B.Vector T)),
         Part000B.Len v = len (Part000B.Slice v) ->
         Part000B.Pop zero growth index (Some v) = Returns (r, this') ->
         snd r <> None)
  /\ (forall (v : Vector T) (index : Z) (r : T * option error)
             (this' : option (Vector T)),
         reachable zero growth v ->
         Pop zero growth index (Some v) = Returns (r, this') ->
         snd r <> None).
Proof.
  assert (Hgo : forall (v : Vector T) (index : Z) (r : T * option error)
                       (this' : option (Vector T)),
             __len v = len (__slice v) ->
             Pop zero growth index (Some v) = Returns (r, this') ->
             snd r <> None).
  { intros [[b|] n c] index r this' Hlen Hrun; cbn in Hlen.
    - destruct (Z.leb_spec index n).
      + rewrite Pop_at_most_len in Hrun by assumption.
        injection Hrun as <- _. discriminate.
      + rewrite Pop_past_len in Hrun by lia. discriminate.
    - rewrite Pop_unallocated in Hrun. injection Hrun as <- _. discriminate. }
  split; [|split; [|split; [|split]]].
  - intros b n c index Hi. split; [|split].
    + now apply Pop_at_most_len.
    + rewrite Part000A_Pop. now apply Pop_at_most_len.
    + unfold Part000B.Pop, Part000B.slice_is_nil, orelse, read, this_is_nil,
        bind, ret. cbn.
      destruct (Z.leb_spec index n); [reflexivity|lia].
  - intros index. apply Pop_nil.
  - intros v index r this' Hlen [Hrun|Hrun].
    + eapply Hgo; eassumption.
    + rewrite Part000A_Pop in Hrun. eapply Hgo; eassumption.
  - intros v index r this' Hlen Hrun.
    pose proof (Part000B_Pop T zero growth index (Some v)) as Hagree.
    rewrite Hrun in Hagree. cbn in Hagree.
    apply (Hgo (to_go v) index r (option_map to_go this')).
    + destruct v; exact Hlen.
    + now rewrite <- Hagree.
  - intros v index r this' Hr Hrun.
    destruct (reachable_consistent T zero growth v Hr) as (_ & Hlen & _).
    eapply Hgo; eassumption.
Qed.

End Claims.

(** * The claims on [Vector[int]]

    The statements above run on concrete vectors of integers, the runtime
    doubling the capacity when [append] reallocates. *)

Import VectorGo Client.

(** [New(); Append(10)], then [Pop(0)]; and [Append(20)], then
    [Pop(Len()-1)]. *)
Lemma Pop_rejects_index_in_range_at_10 :
  0 <= 0 < 1
  /\ Pop 0 doubling 0 (Some (mkVector (Some (mkBacking [10] [])) 1 1))
     = Returns (0, Some (errors_New indexOutOfBounds),
                Some (mkVector (Some (mkBacking [10] [])) 1 1))
  /\ exists v' : Vector Z,
      Append 0 doubling 20 (Some (mkVector (Some (mkBacking [10] [])) 1 1))
      = Returns (None, Some v')
      /\ elements (__slice v') = [10] ++ [20]
      /\ (k <- Len ;; Pop 0 doubling (uint64 (k - 1))) (Some v')
         = Returns (0, Some (errors_New indexOutOfBounds), Some v').
Proof.
  split; [lia|].
  apply (Pop_rejects_index_in_range Z 0 doubling (mkBacking [10] []) 1 1 0 20).
  lia.
Defined.

(** [WithCapacity(2); Append(7)], then [AddCapacity(4)]. *)
Lemma AddCapacity_leaves_WithCapacity_at_4 :
  is_uint64 4
  /\ 4 < two63
  /\ WithCapacity 0 4 = Returns (constructed 0 4)
  /\ AddCapacity 0 doubling 4 (Some (mkVector (Some (mkBacking [7] [0])) 1 2))
     = Returns (None, Some (constructed 0 4))
  /\ elements (__slice (constructed 0 4)) = []
  /\ cap (__slice (constructed 0 4)) = 4.
Proof.
  assert (H : is_uint64 4) by (unfold is_uint64, two64; lia).
  assert (Hlt : 4 < two63) by (unfold two63; lia).
  split; [exact H|]. split; [exact Hlt|].
  exact (proj1 (proj2 (AddCapacity_leaves_WithCapacity Z 0 doubling
                         (mkVector (Some (mkBacking [7] [0])) 1 2) 4 H))
           Hlt).
Defined.

(** [New(); Append(10)], then [Pop(5)]. *)
Lemma Pop_past_length_panics_at_5 :
  1 = len (Some (mkBacking [10] []))
  /\ 1 < 5
  /\ Pop 0 doubling 5 (Some (mkVector (Some (mkBacking [10] [])) 1 1))
     = Panics IndexOutOfRange.
Proof.
  assert (H : 1 = len (Some (mkBacking [10] []))) by reflexivity.
  assert (H5 : 1 < 5) by lia.
  split; [exact H|]. split; [exact H5|].
  exact (proj2 (proj2 (Pop_past_length_panics Z 0 doubling
                         (mkBacking [10] []) 1 1 5 H)) H5).
Defined.

(** [New()], then [Pop(1)] or [Remove(1)]. *)
Lemma Pop_and_Remove_panic_on_New :
  New 0 = Returns (constructed 0 0)
  /\ reachable 0 doubling (constructed 0 0)
  /\ __slice (constructed 0 0) <> None
  /\ __len (constructed 0 0) < 1
  /\ Pop 0 doubling 1 (Some (constructed 0 0)) = Panics IndexOutOfRange
  /\ Remove 0 doubling 1 (Some (constructed 0 0)) = Panics IndexOutOfRange.
Proof.
  assert (Hnew : New 0 = Returns (constructed 0 0)) by reflexivity.
  assert (Hr : reachable 0 doubling (constructed 0 0))
    by exact (reach_New Z 0 doubling _ Hnew).
  assert (Hs : __slice (constructed 0 0) <> None) by discriminate.
  assert (Hi : __len (constructed 0 0) < 1) by (simpl; lia).
  split; [exact Hnew|]. split; [exact Hr|]. split; [exact Hs|].
  split; [exact Hi|].
  exact (Pop_and_Remove_panic_above_length Z 0 doubling
           (constructed 0 0) 1 Hr Hs Hi).
Defined.

(** [New()], then [Append(10); Append(20); Append(30)]. *)
Lemma Append_sequence_Len_and_order_at_3 :
  WithCapacity 0 0 = Returns (constructed 0 0)
  /\ exists v' : Vector Z,
      append_each 0 doubling [10; 20; 30] (Some (constructed 0 0))
      = Returns (repeat None (length [10; 20; 30]), Some v')
      /\ (exists v'' : Vector Z,
            Len (Some v')
            = Returns (Z.of_nat (length [10; 20; 30]), Some v''))
      /\ Part000A.Len (Some v')
         = Returns (Z.of_nat (length [10; 20; 30]), Some v')
      /\ elements (__slice v') = [10; 20; 30].
Proof.
  assert (Hstart : WithCapacity 0 0 = Returns (constructed 0 0))
    by reflexivity.
  split; [exact Hstart|].
  exact (Append_sequence_Len_and_order Z 0 doubling 0 (constructed 0 0)
           [10; 20; 30] Hstart).
Defined.

(** The vector after [New(); Append(10)]. *)
Lemma reachable_satisfies_invariant_after_Append :
  reachable 0 doubling (mkVector (Some (mkBacking [10] [])) 1 1)
  /\ 0 <= 1 <= 1
  /\ 1 = Z.of_nat (length [10])
  /\ 1 = Z.of_nat (length ([10] ++ [])).
Proof.
  assert (Hr : reachable 0 doubling (mkVector (Some (mkBacking [10] [])) 1 1)).
  { apply (reach_call Z 0 doubling (constructed 0 0) _ (CallAppend 10)).
    - exact (reach_New Z 0 doubling _ eq_refl).
    - exact I.
    - reflexivity. }
  split; [exact Hr|].
  exact (reachable_satisfies_invariant Z 0 doubling _ Hr).
Defined.

(** [WithCapacity(2); Append(7)], then [Strip()], with the getters of the
    older revision. *)
Lemma Strip_keeps_Len_and_tightens_Cap_at_7 :
  consistent (mkVector (Some (mkBacking [7] [0])) 1 2)
  /\ exists (k : Z) (s1 s2 : option (Vector Z)),
      Part000A.Len (Some (mkVector (Some (mkBacking [7] [0])) 1 2))
      = Returns (k, Some (mkVector (Some (mkBacking [7] [0])) 1 2))
      /\ (Part000A.Strip ;; Part000A.Len)
           (Some (mkVector (Some (mkBacking [7] [0])) 1 2))
         = Returns (k, s1)
      /\ (Part000A.Strip ;; Part000A.Cap)
           (Some (mkVector (Some (mkBacking [7] [0])) 1 2))
         = Returns (k, s2).
Proof.
  assert (Hc : consistent (mkVector (Some (mkBacking [7] [0])) 1 2)).
  { unfold consistent, len, cap. simpl. lia. }
  split; [exact Hc|].
  exact (proj2 (proj2 (proj2
           (Strip_keeps_Len_and_tightens_Cap Z
              (Some (mkVector (Some (mkBacking [7] [0])) 1 2)))))
           _ eq_refl Hc).
Defined.

(** A vector holding one element. *)
Lemma Reverse_twice_restores_singleton :
  (length [5] <= 1)%nat
  /\ Reverse (Some (mkVector (Some (mkBacking [5] [0])) 1 2))
     = Returns (None, Some (mkVector (Some (mkBacking [5] [0])) 1 2)).
Proof.
  assert (H : (length [5] <= 1)%nat) by (simpl; lia).
  split; [exact H|].
  exact (proj2 (Reverse_twice_restores Z (mkBacking [5] [0]) 1 2) H).
Defined.



(** C9.  The claim has no input make [Pop] return an element without an
    error, as the comment above [Pop] has it for every index at or above
    the length of the instance.  The code departs from it: in the revision
    with exported fields a caller holds a vector of three elements whose
    [Len] field is 0, and [Pop(1)] passes the guard [this.Len >= index],
    reads the element at index 1 and returns it with a [nil] error, leaving
    the vector empty. *)
Theorem Pop_yields_element_under_stale_length :
  Part000B.Pop 0 doubling 1
    (Some (Part000B.mkVector (Some (mkBacking [1; 2; 3] [])) 0 3))
  = Returns (2, None, Some (Part000B.mkVector (Some (mkBacking [] [])) 0 0)).
Proof. vm_compute. reflexivity. Qed.

(** [New(); Append(10)], then [Pop(0)], in the three revisions. *)
Lemma Pop_never_yields_at_10 :
  0 <= 1
  /\ 1 = len (Some (mkBacking [10] []))
  /\ reachable 0 doubling (mkVector (Some (mkBacking [10] [])) 1 1)
  /\ Pop 0 doubling 0 (Some (mkVector (Some (mkBacking [10] [])) 1 1))
     = Returns (0, Some (errors_New indexOutOfBounds),
                Some (mkVector (Some (mkBacking [10] [])) 1 1))
  /\ Part000B.Pop 0 doubling 0
       (Some (Part000B.mkVector (Some (mkBacking [10] [])) 1 1))
     = Returns (0, Some (errors_New Part000B.INDEX_OUT_OF_BOUNDS),
                Some (Part000B.mkVector (Some (mkBacking [10] [])) 1 1))
  /\ snd (0, Some (errors_New indexOutOfBounds)) <> None.
Proof.
  destruct (Pop_never_yields_with_current_length Z 0 doubling)
    as (Hguard & _ & Hgo & HB & Hreach).
  assert (H01 : 0 <= 1) by lia.
  assert (Hlen : 1 = len (Some (mkBacking [10] []))) by reflexivity.
  assert (Hr : reachable 0 doubling (mkVector (Some (mkBacking [10] [])) 1 1)).
  { apply (reach_call Z 0 doubling (constructed 0 0) _ (CallAppend 10)).
    - exact (reach_New Z 0 doubling _ eq_refl).
    - exact I.
    - reflexivity. }
  destruct (Hguard (mkBacking [10] []) 1 1 0 H01) as (Hrun & _ & HrunB).
  split; [exact H01|]. split; [exact Hlen|]. split; [exact Hr|].
  split; [exact Hrun|]. split; [exact HrunB|].
  exact (Hreach _ 0 _ _ Hr Hrun).
Defined.

(** * Further properties of the code *)

Section SliceAccess.

Variable T : Type.
Variable zero : T.
Variable growth : nat -> nat -> nat.

Lemma slice_at_in_range (s : slice T) (i : Z) :
  0 <= i < len s ->
  slice_at s i = Returns (nth (Z.to_nat i) (elements s) zero).
Proof.
  intros Hi. unfold slice_at.
  destruct (Z.leb_spec 0 i); [|lia].
  destruct (Z.ltb_spec i (len s)); [|lia]. cbn.
  rewrite (nth_error_nth' (elements s) zero); [reflexivity|].
  rewrite len_elements in Hi. lia.
Qed.

Lemma slice_to_in_range (b : backing T) (hi : Z) :
  0 <= hi <= cap (Some b) ->
  slice_to (Some b) hi
  = Returns (Some (mkBacking (firstn (Z.to_nat hi) (live b ++ spare b))
                             (skipn (Z.to_nat hi) (live b ++ spare b)))).
Proof.
  intros Hi. unfold slice_to.
  destruct (Z.leb_spec 0 hi); [|lia].
  destruct (Z.leb_spec hi (cap (Some b))); [|lia]. reflexivity.
Qed.

Lemma slice_from_in_range (b : backing T) (lo : Z) :
  0 <= lo <= len (Some b) ->
  slice_from (Some b) lo
  = Returns (Some (mkBacking (skipn (Z.to_nat lo) (live b)) (spare b))).
Proof.
  intros Hi. unfold slice_from.
  destruct (Z.leb_spec 0 lo); [|lia].
  destruct (Z.leb_spec lo (len (Some b))); [|lia]. reflexivity.
Qed.

(** With a free slot [append] writes into it and keeps the array. *)
Lemma append_with_room (b : backing T) (x y : T) (sp : list T) :
  spare b = y :: sp ->
  append zero growth (Some b) [x] = Some (mkBacking (live b ++ [x]) sp).
Proof. intros H. unfold append. cbn. rewrite H. reflexivity. Qed.

End SliceAccess.

Section Extras.

Variable T : Type.
Variable zero : T.
Variable growth : nat -> nat -> nat.

(** ** Clearing and constructing *)

(** X1.  [Clear()] on a present receiver leaves exactly the vector
    [New()] returns, whatever it held: [Len()] and [Cap()] are then 0, and
    a second [Clear()] changes nothing more.  On an absent receiver it
    returns and the receiver stays absent. *)
Theorem Clear_leaves_New (v : Vector T) :
  New zero = Returns (constructed zero 0)
  /\ Clear zero (Some v) = Returns (tt, Some (constructed zero 0))
  /\ (Clear zero ;; Len) (Some v) = Returns (0, Some (constructed zero 0))
  /\ (Clear zero ;; Cap) (Some v) = Returns (0, Some (constructed zero 0))
  /\ (Clear zero ;; Clear zero) (Some v) = Clear zero (Some v)
  /\ @Clear T zero None = Returns (tt, None).
Proof.
  split; [|split; [|split; [|split; [|split]]]]; reflexivity.
Qed.


(** ** The accessors *)


(** ** The absent receiver *)

(** X4.  No public method dereferences a [nil] receiver, in any of the
    three revisions: [AddCapacity], [Append], [Reverse] and [Pop] return the
    nil-access error ([Pop] with the zero value), [Clear], [Strip] and
    [Remove] return, [Len] and [Cap] return 0, and the receiver stays
    absent.  The unguarded [updateStatus] of the first older revision would
    panic on it, and is never reached. *)
Theorem absent_receiver_is_safe (capacity index : Z) (x : T) :
  (AddCapacity zero growth capacity None
   = Returns (Some (errors_New nilValueAccess), None)
   /\ Append zero growth x None
      = Returns (Some (errors_New nilValueAccess), None)
   /\ @Reverse T None = Returns (Some (errors_New nilValueAccess), None)
   /\ Pop zero growth index None
      = Returns (zero, Some (errors_New nilValueAccess), None)
   /\ Remove zero growth index None = Returns (tt, None)
   /\ @Clear T zero None = Returns (tt, None)
   /\ @Strip T None = Returns (tt, None)
   /\ @Len T None = Returns (0, None)
   /\ @Cap T None = Returns (0, None))
  /\ (Part000A.AddCapacity zero growth capacity None
      = Returns (Some (errors_New Part000A.NIL_VALUE_ACCESS), None)
      /\ Part000A.Append zero growth x None
         = Returns (Some (errors_New Part000A.NIL_VALUE_ACCESS), None)
      /\ @Part000A.Reverse T None
         = Returns (Some (errors_New Part000A.NIL_VALUE_ACCESS), None)
      /\ Part000A.Pop zero growth index None
         = Returns (zero, Some (errors_New Part000A.NIL_VALUE_ACCESS), None)
      /\ @Part000A.Clear T zero None = Returns (tt, None)
      /\ @Part000A.Strip T None = Returns (tt, None)
      /\ @Part000A.Len T None = Returns (0, None)
      /\ @Part000A.Cap T None = Returns (0, None)
      /\ @Part000A.updateStatus T None = Panics NilDereference)
  /\ (Part000B.AddCapacity zero growth capacity None
      = Returns (Some (errors_New Part000B.NIL_VALUE_ACCESS), None)
      /\ Part000B.Append zero growth x None
         = Returns (Some (errors_New Part000B.NIL_VALUE_ACCESS), None)
      /\ @Part000B.Reverse T None
         = Returns (Some (errors_New Part000B.NIL_VALUE_ACCESS), None)
      /\ Part000B.Pop zero growth index None
         = Returns (zero, Some (errors_New Part000B.NIL_VALUE_ACCESS), None)
      /\ @Part000B.Clear T zero None = Returns (tt, None)
      /\ @Part000B.Strip T None = Returns (tt, None)).
Proof.
  split; [|split];
    repeat match goal with |- _ /\ _ => split end; reflexivity.
Qed.

(** ** Appending *)

(** X5.  [Append] on any present receiver returns no error, keeps the
    elements already there in place and puts the new one after them; the
    length grows by exactly one and the stored fields are current
    afterwards.  A vector without backing slice, whatever its stored
    fields, is first replaced by [New()]. *)
Theorem Append_extends (v : Vector T) (x : T) :
  (exists v' : Vector T,
      Append zero growth x (Some v) = Returns (None, Some v')
      /\ elements (__slice v') = elements (__slice v) ++ [x]
      /\ __len v' = len (__slice v) + 1
      /\ consistent v'
      /\ Len (Some v') = Returns (len (__slice v) + 1, Some v'))
  /\ New zero = Returns (constructed zero 0)
  /\ forall n c : Z,
      Append zero growth x (Some (mkVector None n c))
      = Append zero growth x (Some (constructed zero 0)).
Proof.
  split; [|split; [reflexivity|intros; rewrite !Append_Some; reflexivity]].
  rewrite Append_Some. cbn zeta.
  set (s0 := match __slice v with
             | Some b => Some b
             | None => zeroed zero 0
             end).
  assert (Hel : elements s0 = elements (__slice v))
    by (unfold s0; destruct (__slice v); reflexivity).
  set (s := append zero growth s0 [x]).
  assert (Hs : elements s = elements (__slice v) ++ [x])
    by (unfold s; now rewrite elements_append, Hel).
  assert (Hl : len s = len (__slice v) + 1).
  { rewrite !len_elements, Hs, length_app. cbn. lia. }
  exists (mkVector s (len s) (cap s)).
  split; [reflexivity|]. split; [exact Hs|]. split; [exact Hl|].
  split; [apply consistent_refreshed|].
  pose proof (append_not_nil T zero growth s0 x []) as Hnn. fold s in Hnn.
  destruct s as [b'|]; [|discriminate].
  rewrite Len_allocated, Hl. reflexivity.
Qed.

Lemma append_each_with_room (xs : list T) (b : backing T) (n c : Z) :
  (length xs <= length (spare b))%nat ->
  exists v' : Vector T,
    append_each zero growth xs (Some (mkVector (Some b) n c))
    = Returns (repeat None (length xs), Some v')
    /\ (xs <> [] -> consistent v')
    /\ __slice v'
       = Some (mkBacking (live b ++ xs) (skipn (length xs) (spare b))).
Proof.
  revert b n c. induction xs as [|x xs IH]; intros b n c Hroom.
  - exists (mkVector (Some b) n c). cbn. split; [reflexivity|].
    split; [congruence|]. rewrite app_nil_r. now destruct b.
  - cbn [length] in Hroom.
    destruct (spare b) as [|y sp] eqn:Hsp; [cbn in Hroom; lia|].
    cbn [length] in Hroom.
    cbn [append_each]. unfold bind at 1. rewrite Append_Some. cbn zeta.
    cbn [__slice]. rewrite (append_with_room T zero growth b x y sp Hsp).
    destruct (IH (mkBacking (live b ++ [x]) sp)
                 (len (Some (mkBacking (live b ++ [x]) sp)))
                 (cap (Some (mkBacking (live b ++ [x]) sp))))
      as (v' & Hrun & Hcons & Hslice); [cbn; lia|].
    exists v'. unfold bind at 1. rewrite Hrun. cbn.
    split; [reflexivity|]. split.
    + intros _. destruct xs as [|x' xs'].
      * cbn in Hrun. injection Hrun as <-. apply consistent_refreshed.
      * apply Hcons. discriminate.
    + rewrite Hslice. cbn [live spare]. now rewrite <- app_assoc.
Qed.

(** X6.  Pre-allocation works: after [WithCapacity(capacity)], appending
    at most [capacity] elements never reallocates.  Every call returns no
    error, the vector holds the elements in order, and the capacity, of the
    slice and as [Cap()] reports it, is still [capacity]. *)
Theorem Append_within_capacity_keeps_Cap
  (capacity : Z) (start : Vector T) (xs : list T) :
  WithCapacity zero capacity = Returns start ->
  Z.of_nat (length xs) <= capacity ->
  exists v' : Vector T,
    append_each zero growth xs (Some start)
    = Returns (repeat None (length xs), Some v')
    /\ elements (__slice v') = xs
    /\ cap (__slice v') = capacity
    /\ exists v'' : Vector T, Cap (Some v') = Returns (capacity, Some v'').
Proof.
  intros Hstart Hfit.
  apply WithCapacity_constructed in Hstart as [-> [Hc _]].
  destruct (append_each_with_room xs
              (mkBacking [] (repeat zero (Z.to_nat capacity))) 0 capacity)
    as (v' & Hrun & _ & Hslice).
  { cbn. rewrite repeat_length. lia. }
  cbn [live spare app] in Hslice.
  assert (Hcap : cap (__slice v') = capacity).
  { rewrite Hslice. unfold cap. cbn [live spare].
    rewrite length_skipn, repeat_length. lia. }
  exists v'. split; [exact Hrun|]. split; [now rewrite Hslice|].
  split; [exact Hcap|].
  destruct v' as [s n c]. cbn [__slice] in Hslice, Hcap. subst s.
  rewrite Cap_allocated. rewrite Hcap. eexists. reflexivity.
Qed.

(** ** Stripping and reversing *)

(** X7.  [Strip()] keeps the elements and their order on every present
    receiver and is idempotent: a second [Strip()] leaves the vector as the
    first one did.  On a vector whose fields are current and whose capacity
    already equals its length it changes nothing at all. *)
Theorem Strip_keeps_elements (v : Vector T) :
  (exists v' : Vector T,
      Strip (Some v) = Returns (tt, Some v')
      /\ elements (__slice v') = elements (__slice v)
      /\ Strip (Some v') = Returns (tt, Some v'))
  /\ (consistent v -> cap (__slice v) = len (__slice v) ->
      Strip (Some v) = Returns (tt, Some v)).
Proof.
  destruct v as [[b|] n c].
  - split.
    + eexists. rewrite Strip_allocated. split; [reflexivity|].
      split; [reflexivity|]. cbn [slices_Clip]. rewrite Strip_allocated.
      reflexivity.
    + intros (_ & Hlen & Hcap) Htight. cbn in Hlen, Hcap, Htight.
      rewrite Strip_allocated. destruct b as [l sp].
      assert (sp = []) as ->.
      { unfold cap, len in Htight. cbn in Htight.
        destruct sp; [reflexivity|cbn in Htight; lia]. }
      subst n c. cbn [slices_Clip live]. rewrite Htight. reflexivity.
  - split.
    + exists (mkVector None n c). repeat split.
    + intros _ _. reflexivity.
Qed.

(** X8.  [Reverse()] on a vector with backing slice returns no error and
    leaves the elements in the opposite order, without touching the spare
    slots, the stored length or the stored capacity; after appending a
    sequence to a fresh vector it leaves the sequence reversed, and [Len()]
    still counts all of it. *)
Theorem Reverse_reverses
  (b : backing T) (n c capacity : Z) (start : Vector T) (xs : list T) :
  (exists v' : Vector T,
      Reverse (Some (mkVector (Some b) n c)) = Returns (None, Some v')
      /\ elements (__slice v') = rev (live b)
      /\ len (__slice v') = len (Some b)
      /\ cap (__slice v') = cap (Some b)
      /\ __len v' = n /\ __cap v' = c)
  /\ (WithCapacity zero capacity = Returns start ->
      exists v1 v2 v3 : Vector T,
        append_each zero growth xs (Some start)
        = Returns (repeat None (length xs), Some v1)
        /\ Reverse (Some v1) = Returns (None, Some v2)
        /\ elements (__slice v2) = rev xs
        /\ Len (Some v2) = Returns (Z.of_nat (length xs), Some v3)).
Proof.
  split.
  - eexists. rewrite Reverse_allocated. split; [reflexivity|].
    split; [reflexivity|]. split; [apply len_slices_Reverse|].
    split; [apply cap_slices_Reverse|]. split; reflexivity.
  - intros Hstart.
    apply WithCapacity_constructed in Hstart as [-> _].
    destruct (append_each_allocated T zero growth xs
                (constructed zero capacity))
      as (v1 & Hrun & Hs & _ & Hel); [discriminate|reflexivity|].
    cbn in Hel. destruct v1 as [[b1|] n1 c1]; [|now elim Hs].
    cbn in Hel.
    exists (mkVector (Some b1) n1 c1).
    exists (mkVector (slices_Reverse (Some b1)) n1 c1).
    eexists. split; [exact Hrun|]. split; [apply Reverse_allocated|].
    split; [cbn; now rewrite Hel|].
    cbn [slices_Reverse]. rewrite Len_allocated.
    unfold len. cbn [live]. rewrite length_rev, Hel. reflexivity.
Qed.

(** ** Indexed removal *)

(** X9.  On a vector a client can hold, [Pop] and [Remove] never remove
    anything: whenever [Pop] returns, it returns the zero value with an
    error and the vector is as it was, and whenever [Remove] returns, the
    vector is as it was. *)
Theorem Pop_and_Remove_never_modify (v : Vector T) (index : Z) :
  reachable zero growth v ->
  (forall (r : T * option error) (this' : option (Vector T)),
      Pop zero growth index (Some v) = Returns (r, this') ->
      fst r = zero /\ snd r <> None /\ this' = Some v)
  /\ (forall this' : option (Vector T),
         Remove zero growth index (Some v) = Returns (tt, this') ->
         this' = Some v).
Proof.
  intros Hr.
  destruct (reachable_consistent T zero growth v Hr) as (_ & Hlen & _).
  destruct v as [[b|] n c]; cbn in Hlen.
  - destruct (Z.leb_spec index n).
    + rewrite Remove_at_most_len, Pop_at_most_len by assumption. split.
      * intros r this' [= <- <-]. repeat split. discriminate.
      * now intros this' [= <-].
    + rewrite Remove_past_len, Pop_past_len by lia.
      split; intros; discriminate.
  - split.
    + rewrite Pop_unallocated. intros r this' [= <- <-].
      repeat split. discriminate.
    + unfold Remove, bind. rewrite Pop_unallocated. cbn.
      now intros this' [= <-].
Qed.

Lemma Pop_past_guard_go (b : backing T) (n c index : Z) :
  n < index -> 0 <= index < len (Some b) ->
  Pop zero growth index (Some (mkVector (Some b) n c))
  = outcome_map
      (fun _ : slice T =>
         (nth (Z.to_nat index) (live b) zero, None,
          Some (constructed zero 0)))
      (make zero (uint64 (c - 1))).
Proof.
  intros Hguard Hi.
  pose proof (len_le_cap T (Some b)) as Hle.
  assert (Hnext : 0 <= uint64 (index + 1) <= len (Some b)).
  { pose proof (uint64_range (index + 1)). unfold uint64 in *.
    pose proof two64_pos. pose proof (Z.mod_le (index + 1) two64). lia. }
  unfold Pop, slice_is_nil, set_slice, orelse, this_is_nil, read, write,
    lift, bind, ret.
  cbn.
  destruct (Z.leb_spec index n); [lia|]. cbn.
  rewrite (slice_at_in_range T zero (Some b) index Hi). cbn.
  rewrite slice_to_in_range by lia. cbn.
  rewrite slice_from_in_range by exact Hnext.
  cbn. destruct (make zero (uint64 (c - 1))) as [s|p]; [|reflexivity].
  cbn. rewrite Clear_Some. unfold copy.
  change (zeroed zero 0) with (Some (mkBacking (@nil T) [])). cbn.
  rewrite updateStatus_allocated. reflexivity.
Qed.

(** X10.  What lies behind the guard of [Pop]: when the stored length is
    below the index, the index is inside the slice and the stored capacity
    is current (a state the revision with exported fields lets a caller
    set up), [Pop] returns the element at the index without error, but
    leaves the vector as [New()] does: the other elements are dropped,
    because they are copied into the slice [Clear()] has just emptied.
    (It returns so whenever its [make] of [__cap-1] slots does, as for
    every capacity up to [2^63], and panics with it otherwise.) *)
Theorem Pop_past_guard_drops_the_rest (b : backing T) (n c index : Z) :
  n < index -> 0 <= index < len (Some b) -> c = cap (Some b) ->
  (Pop zero growth index (Some (mkVector (Some b) n c))
   = outcome_map
       (fun _ : slice T =>
          (nth (Z.to_nat index) (live b) zero, None,
           Some (constructed zero 0)))
       (make zero (uint64 (c - 1)))
   /\ Part000A.Pop zero growth index (Some (mkVector (Some b) n c))
      = outcome_map
          (fun _ : slice T =>
             (nth (Z.to_nat index) (live b) zero, None,
              Some (constructed zero 0)))
          (make zero (uint64 (c - 1)))
   /\ Part000B.Pop zero growth index (Some (Part000B.mkVector (Some b) n c))
      = outcome_map
          (fun _ : slice T =>
             (nth (Z.to_nat index) (live b) zero, None,
              Some (Part000B.mkVector (zeroed zero 0) 0 0)))
          (make zero (uint64 (c - 1))))
  /\ (c <= two63 ->
      New zero = Returns (constructed zero 0)
      /\ Pop zero growth index (Some (mkVector (Some b) n c))
         = Returns (nth (Z.to_nat index) (live b) zero, None,
                    Some (constructed zero 0))
      /\ Part000A.Pop zero growth index (Some (mkVector (Some b) n c))
         = Returns (nth (Z.to_nat index) (live b) zero, None,
                    Some (constructed zero 0))
      /\ Part000B.Pop zero growth index
           (Some (Part000B.mkVector (Some b) n c))
         = Returns (nth (Z.to_nat index) (live b) zero, None,
                    Some (Part000B.mkVector (zeroed zero 0) 0 0))).
Proof.
  intros Hguard Hi Hc.
  pose proof (Pop_past_guard_go b n c index Hguard Hi) as Hgo.
  assert (HB : Part000B.Pop zero growth index
                 (Some (Part000B.mkVector (Some b) n c))
               = outcome_map
                   (fun _ : slice T =>
                      (nth (Z.to_nat index) (live b) zero, None,
                       Some (Part000B.mkVector (zeroed zero 0) 0 0)))
                   (make zero (uint64 (c - 1)))).
  { pose proof (Part000B_Pop T zero growth index
                  (Some (Part000B.mkVector (Some b) n c))) as Hagree.
    unfold option_map, to_go in Hagree.
    cbn [Part000B.Slice Part000B.Len Part000B.Cap] in Hagree.
    rewrite Hgo in Hagree.
    destruct (make zero (uint64 (c - 1))) as [s0|p0];
      destruct (Part000B.Pop zero growth index
                  (Some (Part000B.mkVector (Some b) n c)))
        as [[r [[s k1 k2]|]]|p]; cbn in Hagree; try discriminate.
    - injection Hagree as -> -> -> ->. reflexivity.
    - now injection Hagree as ->. }
  split.
  - split; [exact Hgo|]. split; [now rewrite Part000A_Pop|exact HB].
  - intros Hle.
    assert (Hmake : make zero (uint64 (c - 1))
                    = Returns (zeroed zero (c - 1))).
    { pose proof (len_le_cap T (Some b)).
      assert (0 <= c - 1 < two63) by lia.
      rewrite uint64_small by (unfold two63, two64 in *; lia).
      now apply make_in_range. }
    split; [reflexivity|].
    rewrite Part000A_Pop, HB, Hgo, Hmake. repeat split.
Qed.

(** ** The accessors, for a client *)

(** X11.  For a client the accessors are read-only: on every vector a
    client can hold, [Len()] returns the number of elements, [Cap()] the
    size of the backing array, and the vector is afterwards exactly as it
    was. *)
Theorem Len_and_Cap_leave_reachable_vector (v : Vector T) :
  reachable zero growth v ->
  Len (Some v) = Returns (Z.of_nat (length (elements (__slice v))), Some v)
  /\ Cap (Some v) = Returns (cap (__slice v), Some v).
Proof.
  intros Hr.
  destruct (reachable_consistent T zero growth v Hr) as (_ & Hlen & Hcap).
  rewrite <- len_elements.
  destruct v as [[b|] n c]; cbn in Hlen, Hcap.
  - subst n c. cbn [__slice]. rewrite Len_allocated, Cap_allocated.
    split; reflexivity.
  - split; reflexivity.
Qed.

(** ** The older revisions *)

(** X12.  The first older revision computes what [vector.go] computes: on
    every receiver its [AddCapacity], [Clear], [Strip], [Reverse], [Append]
    and [Pop] give the same result and the same vector, although its
    [Strip] does not test the slice and its [updateStatus] does not test
    the receiver.  Its getters [Len] and [Cap] return the stored fields
    unrefreshed, which is what [vector.go] returns when the fields are
    current. *)
Theorem first_revision_agrees
  (this : option (Vector T)) (capacity index : Z) (x : T) :
  (Part000A.AddCapacity zero growth capacity this
   = AddCapacity zero growth capacity this
   /\ Part000A.Clear zero this = Clear zero this
   /\ Part000A.Strip this = Strip this
   /\ Part000A.Reverse this = Reverse this
   /\ Part000A.Append zero growth x this = Append zero growth x this
   /\ Part000A.Pop zero growth index this = Pop zero growth index this)
  /\ forall v : Vector T,
      this = Some v -> consistent v ->
      Part000A.Len this = Len this /\ Part000A.Cap this = Cap this.
Proof.
  split.
  - split; [apply Part000A_AddCapacity|]. split; [apply Part000A_Clear|].
    split; [apply Part000A_Strip|]. split; [apply Part000A_Reverse|].
    split; [apply Part000A_Append|apply Part000A_Pop].
  - intros v -> (Hle & Hlen & Hcap).
    destruct v as [[b|] n c]; cbn in Hle, Hlen, Hcap.
    + rewrite Part000A_Len, Part000A_Cap, Len_allocated, Cap_allocated.
      cbn. rewrite <- Hlen, <- Hcap. split; reflexivity.
    + assert (n = 0 /\ c = 0) as [-> ->] by (unfold len, cap in *; lia).
      split; reflexivity.
Qed.

(** X13.  The revision with exported fields computes what [vector.go]
    computes: with [Slice], [Len], [Cap] read as [__slice], [__len],
    [__cap], its [AddCapacity], [Clear], [Strip], [Reverse], [Append] and
    [Pop] give on every receiver the same result and the same vector. *)
Theorem exported_revision_agrees
  (this : option (Part000B.Vector T)) (capacity index : Z) (x : T) :
  as_go (Part000B.AddCapacity zero growth capacity this)
  = AddCapacity zero growth capacity (option_map to_go this)
  /\ as_go (Part000B.Clear zero this) = Clear zero (option_map to_go this)
  /\ as_go (Part000B.Strip this) = Strip (option_map to_go this)
  /\ as_go (Part000B.Reverse this) = Reverse (option_map to_go this)
  /\ as_go (Part000B.Append zero growth x this)
     = Append zero growth x (option_map to_go this)
  /\ as_go (Part000B.Pop zero growth index this)
     = Pop zero growth index (option_map to_go this).
Proof.
  split; [apply Part000B_AddCapacity|]. split; [apply Part000B_Clear|].
  split; [apply Part000B_Strip|]. split; [apply Part000B_Reverse|].
  split; [apply Part000B_Append|apply Part000B_Pop].
Qed.

End Extras.

(** * The further properties on [Vector[int]] *)


(** [WithCapacity(3)], then [Append(1); Append(2)]. *)
Lemma Append_within_capacity_keeps_Cap_at_3 :
  WithCapacity 0 3 = Returns (constructed 0 3)
  /\ Z.of_nat (length [1; 2]) <= 3
  /\ exists v' : Vector Z,
      append_each 0 doubling [1; 2] (Some (constructed 0 3))
      = Returns (repeat None (length [1; 2]), Some v')
      /\ elements (__slice v') = [1; 2]
      /\ cap (__slice v') = 3
      /\ exists v'' : Vector Z, Cap (Some v') = Returns (3, Some v'').
Proof.
  assert (H : WithCapacity 0 3 = Returns (constructed 0 3)) by reflexivity.
  assert (Hfit : Z.of_nat (length [1; 2]) <= 3) by (simpl; lia).
  split; [exact H|]. split; [exact Hfit|].
  exact (Append_within_capacity_keeps_Cap Z 0 doubling 3 (constructed 0 3)
           [1; 2] H Hfit).
Defined.

(** [New()], then [Append(10); Append(20)] and [Reverse()]. *)
Lemma Reverse_reverses_at_2 :
  WithCapacity 0 0 = Returns (constructed 0 0)
  /\ exists v1 v2 v3 : Vector Z,
      append_each 0 doubling [10; 20] (Some (constructed 0 0))
      = Returns (repeat None (length [10; 20]), Some v1)
      /\ Reverse (Some v1) = Returns (None, Some v2)
      /\ elements (__slice v2) = rev [10; 20]
      /\ Len (Some v2) = Returns (Z.of_nat (length [10; 20]), Some v3).
Proof.
  assert (H : WithCapacity 0 0 = Returns (constructed 0 0)) by reflexivity.
  split; [exact H|].
  exact (proj2 (Reverse_reverses Z 0 doubling (mkBacking [] []) 0 0 0
                  (constructed 0 0) [10; 20]) H).
Defined.

(** A vector of one element and capacity 1. *)
Lemma Strip_keeps_elements_when_tight :
  consistent (mkVector (Some (mkBacking [7] [])) 1 1)
  /\ cap (Some (mkBacking [7] [])) = len (Some (mkBacking [7] []))
  /\ Strip (Some (mkVector (Some (mkBacking [7] [])) 1 1))
     = Returns (tt, Some (mkVector (Some (mkBacking [7] [])) 1 1)).
Proof.
  assert (Hc : consistent (mkVector (Some (mkBacking [7] [])) 1 1)).
  { unfold consistent, len, cap. simpl. lia. }
  assert (Ht : cap (Some (mkBacking [7] [])) = len (Some (mkBacking [7] [])))
    by reflexivity.
  split; [exact Hc|]. split; [exact Ht|].
  exact (proj2 (Strip_keeps_elements Z
                  (mkVector (Some (mkBacking [7] [])) 1 1)) Hc Ht).
Defined.

(** [New(); Append(10)], then [Pop(0)] and [Remove(0)]. *)
Lemma Pop_and_Remove_never_modify_at_10 :
  reachable 0 doubling (mkVector (Some (mkBacking [10] [])) 1 1)
  /\ (forall (r : Z * option error) (this' : option (Vector Z)),
         Pop 0 doubling 0 (Some (mkVector (Some (mkBacking [10] [])) 1 1))
         = Returns (r, this') ->
         fst r = 0 /\ snd r <> None
         /\ this' = Some (mkVector (Some (mkBacking [10] [])) 1 1))
  /\ (forall this' : option (Vector Z),
         Remove 0 doubling 0 (Some (mkVector (Some (mkBacking [10] [])) 1 1))
         = Returns (tt, this') ->
         this' = Some (mkVector (Some (mkBacking [10] [])) 1 1)).
Proof.
  assert (Hr : reachable 0 doubling (mkVector (Some (mkBacking [10] [])) 1 1)).
  { apply (reach_call Z 0 doubling (constructed 0 0) _ (CallAppend 10)).
    - exact (reach_New Z 0 doubling _ eq_refl).
    - exact I.
    - reflexivity. }
  split; [exact Hr|].
  exact (Pop_and_Remove_never_modify Z 0 doubling _ 0 Hr).
Defined.

(** Three elements under a stored length of 0, then [Pop(1)]. *)
Lemma Pop_past_guard_drops_the_rest_at_1 :
  0 < 1
  /\ 0 <= 1 < len (Some (mkBacking [1; 2; 3] []))
  /\ 3 = cap (Some (mkBacking [1; 2; 3] []))
  /\ 3 <= two63
  /\ New 0 = Returns (constructed 0 0)
  /\ Pop 0 doubling 1 (Some (mkVector (Some (mkBacking [1; 2; 3] [])) 0 3))
     = Returns (2, None, Some (constructed 0 0))
  /\ Part000A.Pop 0 doubling 1
       (Some (mkVector (Some (mkBacking [1; 2; 3] [])) 0 3))
     = Returns (2, None, Some (constructed 0 0))
  /\ Part000B.Pop 0 doubling 1
       (Some (Part000B.mkVector (Some (mkBacking [1; 2; 3] [])) 0 3))
     = Returns (2, None, Some (Part000B.mkVector (zeroed 0 0) 0 0)).
Proof.
  assert (Hg : 0 < 1) by lia.
  assert (Hi : 0 <= 1 < len (Some (mkBacking [1; 2; 3] [])))
    by (unfold len; simpl; lia).
  assert (Hc : 3 = cap (Some (mkBacking [1; 2; 3] []))) by reflexivity.
  assert (Hle : 3 <= two63) by (unfold two63; lia).
  split; [exact Hg|]. split; [exact Hi|]. split; [exact Hc|].
  split; [exact Hle|].
  exact (proj2 (Pop_past_guard_drops_the_rest Z 0 doubling
                  (mkBacking [1; 2; 3] []) 0 3 1 Hg Hi Hc) Hle).
Defined.

(** [New(); Append(10)], read with the getters of both revisions. *)
Lemma first_revision_agrees_at_10 :
  consistent (mkVector (Some (mkBacking [10] [])) 1 1)
  /\ Part000A.Len (Some (mkVector (Some (mkBacking [10] [])) 1 1))
     = Len (Some (mkVector (Some (mkBacking [10] [])) 1 1))
  /\ Part000A.Cap (Some (mkVector (Some (mkBacking [10] [])) 1 1))
     = Cap (Some (mkVector (Some (mkBacking [10] [])) 1 1)).
Proof.
  assert (Hc : consistent (mkVector (Some (mkBacking [10] [])) 1 1)).
  { unfold consistent, len, cap. simpl. lia. }
  split; [exact Hc|].
  exact (proj2 (first_revision_agrees Z 0 doubling
                  (Some (mkVector (Some (mkBacking [10] [])) 1 1)) 0 0 0)
           _ eq_refl Hc).
Defined.

(** [New(); Append(10)], then [Len()] and [Cap()]. *)
Lemma Len_and_Cap_leave_reachable_vector_at_10 :
  reachable 0 doubling (mkVector (Some (mkBacking [10] [])) 1 1)
  /\ Len (Some (mkVector (Some (mkBacking [10] [])) 1 1))
     = Returns (1, Some (mkVector (Some (mkBacking [10] [])) 1 1))
  /\ Cap (Some (mkVector (Some (mkBacking [10] [])) 1 1))
     = Returns (1, Some (mkVector (Some (mkBacking [10] [])) 1 1)).
Proof.
  assert (Hr : reachable 0 doubling (mkVector (Some (mkBacking [10] [])) 1 1)).
  { apply (reach_call Z 0 doubling (constructed 0 0) _ (CallAppend 10)).
    - exact (reach_New Z 0 doubling _ eq_refl).
    - exact I.
    - reflexivity. }
  split; [exact Hr|].
  exact (Len_and_Cap_leave_reachable_vector Z 0 doubling _ Hr).
Defined.
